(** * Open Data API client example: a shallow embedding

    Source: [docs/api/examples/python-client.py].

    The client is sequential Python over the [requests] library.  It is
    embedded as a state-and-exception monad over a [World] that holds the
    client object, the requests put on the wire and the pauses taken.
    The network is a function from the number of earlier requests and the
    request sent to what [session.request] does with it.  [print] calls
    are left out: they write to the console only. *)

From Stdlib Require Import ZArith String Ascii List Lia Bool.
From stdpp Require Import base option gmap strings pretty.

#[local] Set Warnings "-register-all".
Local Open Scope string_scope.
Local Open Scope Z_scope.

(** ** Python values *)

(** The values the client handles are [None], strings and whatever
    [json.loads] builds.  [JNull] is Python's [None].  JSON numbers with
    a fractional part are outside the model: the client does no
    arithmetic on payloads. *)
Inductive json : Type :=
| JNull
| JBool (b : bool)
| JNum (n : Z)
| JStr (s : string)
| JArr (items : list json)
| JObj (fields : list (string * json)).

(** Truth value of an object, as tested by [if x:] and [not x]. *)
Definition truthy (v : json) : bool :=
  match v with
  | JNull => false
  | JBool b => b
  | JNum n => negb (n =? 0)
  | JStr s => negb (String.eqb s "")
  | JArr items => match items with [] => false | _ :: _ => true end
  | JObj fields => match fields with [] => false | _ :: _ => true end
  end.

(** A parsed object as an association list; the first binding of a key
    is the dict's value for it. *)
Fixpoint assoc (k : string) (fields : list (string * json)) : option json :=
  match fields with
  | [] => None
  | (k', v) :: rest => if String.eqb k k' then Some v else assoc k rest
  end.

(** Exceptions, by class.  [RateLimitError] is a subclass of
    [OpenDataAPIError] whose constructor fixes the status to 429 and the
    type tag to ['rate-limit-exceeded'].  The other classes are the ones
    the interpreter and [requests] raise on the paths the client runs;
    all of them derive from [Exception].  Each carries what its message
    is made from: [AttributeError] the type of the object and the name
    of the attribute, [TypeError] the type of the object that was
    indexed with a string, the others their message. *)
Inductive exn : Type :=
| OpenDataAPIError (message : json) (status_code : Z) (error_type : json)
| RateLimitError (message : json) (retry_after : Z)
| JSONDecodeError (msg : string)
| AttributeError (type_name attribute : string)
| KeyError (key : string)
| TypeError (type_name : string)
| ValueError (msg : string)
| OverflowError (msg : string)
| OSError (msg : string)
| TransportError (what : string)
| Exception (msg : string).

(** [type(v).__name__] *)
Definition type_name (v : json) : string :=
  match v with
  | JNull => "NoneType"
  | JBool _ => "bool"
  | JNum _ => "int"
  | JStr _ => "str"
  | JArr _ => "list"
  | JObj _ => "dict"
  end.

(** [type(e).__name__] *)
Definition class_name (e : exn) : string :=
  match e with
  | OpenDataAPIError _ _ _ => "OpenDataAPIError"
  | RateLimitError _ _ => "RateLimitError"
  | JSONDecodeError _ => "JSONDecodeError"
  | AttributeError _ _ => "AttributeError"
  | KeyError _ => "KeyError"
  | TypeError _ => "TypeError"
  | ValueError _ => "ValueError"
  | OverflowError _ => "OverflowError"
  | OSError _ => "OSError"
  | TransportError _ => "RequestException"
  | Exception _ => "Exception"
  end.

(** [isinstance(e, OpenDataAPIError)], with [e.status_code] when it is. *)
Definition api_status (e : exn) : option Z :=
  match e with
  | OpenDataAPIError _ st _ => Some st
  | RateLimitError _ _ => Some 429
  | _ => None
  end.

Inductive result (A : Type) : Type :=
| Ok (a : A)
| Raise (e : exn).
Arguments Ok {A} a.
Arguments Raise {A} e.

(** [v[k]] for a string key [k]. *)
Definition getitem (v : json) (k : string) : result json :=
  match v with
  | JObj fields =>
      match assoc k fields with
      | Some x => Ok x
      | None => Raise (KeyError k)
      end
  | _ => Raise (TypeError (type_name v))
  end.

(** [v.get(k, default)]: only dicts have the method. *)
Definition dict_get (v : json) (k : string) (default : json) : result json :=
  match v with
  | JObj fields => Ok (match assoc k fields with Some x => x | None => default end)
  | _ => Raise (AttributeError (type_name v) "get")
  end.

(** [s.lstrip('/')] *)
Fixpoint lstrip_slash (s : string) : string :=
  match s with
  | String c rest => if Ascii.eqb c "/" then lstrip_slash rest else s
  | EmptyString => s
  end.

(** [range(n)] and [range(start, stop, step)]; a zero step is a
    [ValueError]. *)
Definition range (n : Z) : list Z :=
  map Z.of_nat (seq 0 (Z.to_nat n)).

Definition range3 (start stop step : Z) : result (list Z) :=
  if step =? 0 then Raise (ValueError "range() arg 3 must not be zero")
  else if 0 <? step then
    Ok (map (fun k => start + Z.of_nat k * step)
            (seq 0 (Z.to_nat ((stop - start + step - 1) / step))))
  else
    Ok (map (fun k => start + Z.of_nat k * step)
            (seq 0 (Z.to_nat ((start - stop - step - 1) / (- step))))).

(** [l[lo:hi]]: a negative bound counts from the end, and both bounds are
    clamped to the list. *)
Definition slice {A} (l : list A) (lo hi : Z) : list A :=
  let n := Z.of_nat (length l) in
  let norm k := if k <? 0 then Z.max 0 (k + n) else Z.min k n in
  firstn (Z.to_nat (norm hi - norm lo)) (skipn (Z.to_nat (norm lo)) l).

(** ** The [requests] library *)

(** A response: [headers] is [requests]' case-insensitive dict, keyed as
    that class stores it, by lower-cased name.  [body] is what
    [response.json()] returns, [None] when it raises its
    [JSONDecodeError], whose message is then [decode_error]. *)
Record Response : Type := {
  status_code : Z;
  headers : gmap string string;
  body : option json;
  decode_error : string
}.

(** [Response.ok]: [raise_for_status()] does not raise, and it raises
    for [400 <= status_code < 600] only. *)
Definition ok (response : Response) : bool :=
  negb ((400 <=? status_code response) && (status_code response <? 600)).

(** What [session.request(method, url, **kwargs)] is called with. *)
Record Request : Type := {
  method : string;
  url : string;
  req_headers : gmap string json;
  req_json : option json
}.

(** The keyword arguments [_request] is given. *)
Record Kwargs : Type := {
  kw_headers : option (gmap string json);
  kw_json : option json
}.

Definition no_kwargs : Kwargs := {| kw_headers := None; kw_json := None |}.

(** [session.request] returns a response or raises one of [requests]'
    own exceptions. *)
Inductive Reply : Type :=
| Answer (response : Response)
| Broken (what : string).

(** ** The interpreter and standard library

    Library functions the client calls and whose full behaviour is not
    written out here. *)
Inductive time_error : Type :=
| TimeValueError (msg : string)
| TimeOSError (msg : string)
| TimeOverflowError (msg : string).

Definition time_exn (te : time_error) : exn :=
  match te with
  | TimeValueError msg => ValueError msg
  | TimeOSError msg => OSError msg
  | TimeOverflowError msg => OverflowError msg
  end.

Record Runtime : Type := {
  (** [int(s)] on a string: [None] when it raises [ValueError]. *)
  py_int : string -> option Z;
  (** the message of that [ValueError] *)
  int_error : string -> string;
  (** what [datetime.fromtimestamp(n)] raises, a [ValueError], an
      [OSError] or an [OverflowError] by the value and the platform, and
      [None] when it returns; the datetime itself is kept as its epoch
      seconds. *)
  fromtimestamp_error : Z -> option time_error;
  (** the longest sleep, in whole seconds, that the clock of the machine
      has room for: [time.sleep] asks the kernel to wake it at the time
      of its clock plus the duration, and the kernel refuses a time past
      the range of that clock, 9223372036 seconds; a machine that has
      not been up for 292 years has room for the 5 seconds of a pause *)
  sleep_limit : Z;
  sleep_limit_range : 5 <= sleep_limit <= 9223372035;
  (** [urllib.parse.urljoin] *)
  urljoin : string -> string -> string;
  (** [str(v)], as an f-string renders a value that is not a string *)
  py_str : json -> string;
  (** [str(e)] on an exception *)
  exn_str : exn -> string
}.

(** Whether [datetime.fromtimestamp(n)] returns. *)
Definition fromtimestamp_ok (R : Runtime) (n : Z) : bool :=
  match fromtimestamp_error R n with
  | None => true
  | Some _ => false
  end.

(** ** Client state *)

Record RateLimit : Type := {
  limit : option Z;
  remaining : option Z;
  reset : option Z
}.

Record OpenDataAPIClient : Type := {
  base_url : string;
  access_token : json;
  refresh_token : json;
  rate_limit : RateLimit
}.

Record World : Type := {
  client : OpenDataAPIClient;
  sent : list Request;
  sleeps : list Z
}.

Definition set_rate_limit (f : RateLimit -> RateLimit) (w : World) : World :=
  {| client := {| base_url := base_url (client w);
                  access_token := access_token (client w);
                  refresh_token := refresh_token (client w);
                  rate_limit := f (rate_limit (client w)) |};
     sent := sent w; sleeps := sleeps w |}.

Definition set_access_token (v : json) (w : World) : World :=
  {| client := {| base_url := base_url (client w);
                  access_token := v;
                  refresh_token := refresh_token (client w);
                  rate_limit := rate_limit (client w) |};
     sent := sent w; sleeps := sleeps w |}.

Definition set_refresh_token (v : json) (w : World) : World :=
  {| client := {| base_url := base_url (client w);
                  access_token := access_token (client w);
                  refresh_token := v;
                  rate_limit := rate_limit (client w) |};
     sent := sent w; sleeps := sleeps w |}.

Definition record_request (req : Request) (w : World) : World :=
  {| client := client w; sent := sent w ++ [req]; sleeps := sleeps w |}.

Definition record_sleep (secs : Z) (w : World) : World :=
  {| client := client w; sent := sent w; sleeps := sleeps w ++ [secs] |}.

(** ** Statements: state and exceptions *)

Definition M (A : Type) : Type := World -> result A * World.

Definition ret {A} (a : A) : M A := fun w => (Ok a, w).

Definition raise {A} (e : exn) : M A := fun w => (Raise e, w).

Definition bind {A B} (m : M A) (k : A -> M B) : M B :=
  fun w =>
    match m w with
    | (Ok a, w1) => k a w1
    | (Raise e, w1) => (Raise e, w1)
    end.

Notation "x <- m ;; k" := (bind m (fun x => k))
  (at level 100, m at next level, right associativity).
Notation "m ;; k" := (bind m (fun _ => k))
  (at level 100, right associativity).

Definition lift {A} (r : result A) : M A := fun w => (r, w).

Definition modify (f : World -> World) : M unit := fun w => (Ok tt, f w).

Definition gets {A} (f : World -> A) : M A := fun w => (Ok (f w), w).

(** [try: m  except ...: h]: [h e] is [None] when no clause matches
    [e], which then propagates. *)
Definition try_except {A} (m : M A) (h : exn -> option (M A)) : M A :=
  fun w =>
    match m w with
    | (Ok a, w1) => (Ok a, w1)
    | (Raise e, w1) =>
        match h e with
        | Some handler => handler w1
        | None => (Raise e, w1)
        end
    end.

(** [try: m  finally: fin] *)
Definition try_finally {A} (m : M A) (fin : M unit) : M A :=
  fun w =>
    match m w with
    | (r, w1) =>
        match fin w1 with
        | (Ok _, w2) => (r, w2)
        | (Raise e, w2) => (Raise e, w2)
        end
    end.

(** The most whole seconds that fit the 64-bit nanoseconds in which
    [time.sleep] keeps a duration. *)
Definition sleep_max : Z := 9223372036.

(** [time.sleep(secs)] on an integer: a duration that does not fit is an
    [OverflowError], a negative one that fits a [ValueError], and one
    the clock has no room for the [OSError] of the refused system call
    (errno 22). *)
Definition sleep (R : Runtime) (secs : Z) : M unit :=
  if (secs <? - sleep_max) || (sleep_max <? secs) then
    raise (OverflowError "timestamp too large to convert to C _PyTime_t")
  else if secs <? 0 then
    raise (ValueError "sleep length must be non-negative")
  else if sleep_limit R <? secs then
    raise (OSError "[Errno 22] Invalid argument")
  else modify (record_sleep secs).

(** [name.lower()] on an ASCII header name, the key under which the
    case-insensitive dict files a header. *)
Definition lower_ascii (c : ascii) : ascii :=
  let n := nat_of_ascii c in
  if (Nat.leb 65 n && Nat.leb n 90)%bool then ascii_of_nat (n + 32) else c.

Fixpoint lower (s : string) : string :=
  match s with
  | String c rest => String (lower_ascii c) (lower rest)
  | EmptyString => EmptyString
  end.

(** [response.headers.get(name)] *)
Definition header (response : Response) (name : string) : option string :=
  headers response !! lower name.

(** ** The client and its wrappers *)

Section Client.

Variable R : Runtime.
Variable transport : nat -> Request -> Reply.

(** [int(s)] *)
Definition int (s : string) : M Z :=
  match py_int R s with
  | Some n => ret n
  | None => raise (ValueError (int_error R s))
  end.

(** An f-string field: a string is rendered as itself. *)
Definition format (v : json) : string :=
  match v with
  | JStr s => s
  | _ => py_str R v
  end.

(** [OpenDataAPIClient._update_rate_limit]: each header that is present
    is converted and stored, in this order; a conversion that raises
    leaves the earlier assignments in place. *)
Definition _update_rate_limit (response : Response) : M unit :=
  (match header response "X-RateLimit-Limit" with
   | Some v =>
       n <- int v ;;
       modify (set_rate_limit (fun rl =>
         {| limit := Some n; remaining := remaining rl; reset := reset rl |}))
   | None => ret tt
   end) ;;
  (match header response "X-RateLimit-Remaining" with
   | Some v =>
       n <- int v ;;
       modify (set_rate_limit (fun rl =>
         {| limit := limit rl; remaining := Some n; reset := reset rl |}))
   | None => ret tt
   end) ;;
  (match header response "X-RateLimit-Reset" with
   | Some v =>
       n <- int v ;;
       match fromtimestamp_error R n with
       | None =>
           modify (set_rate_limit (fun rl =>
             {| limit := limit rl; remaining := remaining rl; reset := Some n |}))
       | Some te => raise (time_exn te)
       end
   | None => ret tt
   end).

(** [response.json()] *)
Definition response_json (response : Response) : M json :=
  match body response with
  | Some v => ret v
  | None => raise (JSONDecodeError (decode_error response))
  end.

(** The request [_request] builds from its arguments and the client. *)
Definition build_request (method path : string) (kwargs : Kwargs)
    (c : OpenDataAPIClient) : Request :=
  let url := urljoin R (base_url c) (lstrip_slash path) in
  let headers := default ∅ (kw_headers kwargs) in
  let headers := <["Content-Type" := JStr "application/json"]> headers in
  let headers :=
    if truthy (access_token c)
    then <["Authorization" := JStr ("Bearer " +:+ format (access_token c))]> headers
    else headers in
  {| method := method; url := url; req_headers := headers;
     req_json := kw_json kwargs |}.

(** [self.session.request(method, url, **kwargs)] *)
Definition session_request (req : Request) : M Response :=
  fun w =>
    match transport (length (sent w)) req with
    | Answer response => (Ok response, record_request req w)
    | Broken what => (Raise (TransportError what), record_request req w)
    end.

(** The error branch of [_request]: the exception a response that is not
    [ok] is turned into. *)
Definition error_response (response : Response) : M json :=
  err <- try_except
    (error_data <- response_json response ;;
     title <- lift (dict_get error_data "title" (JStr "Unknown error")) ;;
     error_message <- lift (dict_get error_data "detail" title) ;;
     error_type <- lift (dict_get error_data "type" (JStr "")) ;;
     ret (error_message, error_type))
    (fun e =>
       match e with
       | JSONDecodeError _ =>
           Some (ret (JStr ("HTTP " +:+ pretty (status_code response) +:+ " Error"),
                      JStr ""))
       | _ => None
       end) ;;
  if status_code response =? 429 then
    retry_after <- match header response "Retry-After" with
                   | Some v => int v
                   | None => ret 60
                   end ;;
    raise (RateLimitError (fst err) retry_after)
  else
    raise (OpenDataAPIError (fst err) (status_code response) (snd err)).

(** [_request] from the test of [response.ok] on. *)
Definition read_response (response : Response) : M json :=
  if ok response then
    if status_code response =? 204 then ret JNull
    else response_json response
  else error_response response.

(** [OpenDataAPIClient._request] *)
Definition _request (method path : string) (kwargs : Kwargs) : M json :=
  c <- gets client ;;
  response <- session_request (build_request method path kwargs c) ;;
  _update_rate_limit response ;;
  read_response response.

(** [OpenDataAPIClient.refresh_access_token]: the access token is
    assigned before [response['refresh_token']] is read. *)
Definition refresh_access_token : M json :=
  c <- gets client ;;
  if negb (truthy (refresh_token c)) then
    raise (ValueError "Refresh token is required")
  else
    response <- _request "POST" "/auth/refresh"
      {| kw_headers := None;
         kw_json := Some (JObj [("refresh_token", refresh_token c)]) |} ;;
    a <- lift (getitem response "access_token") ;;
    modify (set_access_token a) ;;
    r <- lift (getitem response "refresh_token") ;;
    modify (set_refresh_token r) ;;
    ret response.

(** [OpenDataAPIClient.get_data]; [etag] is [JNull] when the argument is
    left out. *)
Definition get_data (path : string) (etag : json) : M (json * json) :=
  let headers : gmap string json :=
    if truthy etag then <["If-None-Match" := etag]> ∅ else ∅ in
  try_except
    (response <- _request "GET" ("/data/" +:+ path)
       {| kw_headers := Some headers; kw_json := None |} ;;
     data <- lift (getitem response "data") ;;
     metadata <- lift (getitem response "metadata") ;;
     etag' <- lift (getitem metadata "etag") ;;
     ret (data, etag'))
    (fun e =>
       match api_status e with
       | Some st => Some (if st =? 304 then ret (JNull, etag) else raise e)
       | None => None
       end).

(** [OpenDataAPIClient.logout] *)
Definition logout : M unit :=
  _request "POST" "/auth/logout" no_kwargs ;;
  modify (set_access_token JNull) ;;
  modify (set_refresh_token JNull).

(** [OpenDataAPIClient.check_health] and [check_detailed_health] *)
Definition check_health : M json :=
  token <- gets (fun w => access_token (client w)) ;;
  modify (set_access_token JNull) ;;
  try_finally
    (_request "GET" "/../health" no_kwargs)
    (modify (set_access_token token)).

Definition check_detailed_health : M json :=
  token <- gets (fun w => access_token (client w)) ;;
  modify (set_access_token JNull) ;;
  try_finally
    (_request "GET" "/../health/detailed" no_kwargs)
    (modify (set_access_token token)).

End Client.

Section Wrappers.

Variable R : Runtime.
Variable transport : nat -> Request -> Reply.

Definition failed_after (max_retries : Z) : string :=
  "Failed after " +:+ pretty max_retries +:+ " retries".

(** The body of [for attempt in range(max_retries)], over the attempts
    still to run, and the [raise] after the loop. *)
Fixpoint retry_loop (path : string) (max_retries : Z) (attempts : list Z)
    : M json :=
  match attempts with
  | [] => raise (Exception (failed_after max_retries))
  | attempt :: rest =>
      fun w =>
        match get_data R transport path JNull w with
        | (Ok (data, _), w1) => (Ok data, w1)
        | (Raise (RateLimitError message retry_after), w1) =>
            (sleep R retry_after ;; retry_loop path max_retries rest) w1
        | (Raise (OpenDataAPIError message status error_type), w1) =>
            if (status =? 401) && (attempt <? max_retries - 1) then
              (refresh_access_token R transport ;;
               retry_loop path max_retries rest) w1
            else (Raise (OpenDataAPIError message status error_type), w1)
        | (Raise e, w1) => (Raise e, w1)
        end
  end.

(** [fetch_with_retry(client, path, max_retries)] *)
Definition fetch_with_retry (path : string) (max_retries : Z) : M json :=
  retry_loop path max_retries (range max_retries).

(** The dicts [fetch_multiple_data] appends to [results]. *)
Definition success_record (path : string) (data etag : json) : json :=
  JObj [("path", JStr path); ("data", data); ("etag", etag);
        ("success", JBool true)].

Definition failure_record (path : string) (e : exn) : json :=
  JObj [("path", JStr path); ("error", JStr (exn_str R e));
        ("success", JBool false)].

(** [for path in batch: ...] *)
Fixpoint fetch_batch (batch : list string) (results : list json)
    : M (list json) :=
  match batch with
  | [] => ret results
  | path :: rest =>
      results' <- try_except
        (r <- get_data R transport path JNull ;;
         ret (results ++ [success_record path (fst r) (snd r)])%list)
        (fun e => Some (ret (results ++ [failure_record path e])%list)) ;;
      fetch_batch rest results'
  end.

(** The test before [time.sleep(5)]. *)
Definition rate_limit_low (paths : list string) (batch_size i : Z)
    (w : World) : bool :=
  match remaining (rate_limit (client w)) with
  | Some r => (r <? 10) && (i + batch_size <? Z.of_nat (length paths))
  | None => false
  end.

(** One pass of [for i in range(0, len(paths), batch_size)]. *)
Definition fetch_group (paths : list string) (batch_size i : Z)
    (results : list json) : M (list json) :=
  results' <- fetch_batch (slice paths i (i + batch_size)) results ;;
  low <- gets (rate_limit_low paths batch_size i) ;;
  (if low : bool then sleep R 5 else ret tt) ;;
  ret results'.

Fixpoint fetch_groups (paths : list string) (batch_size : Z)
    (starts : list Z) (results : list json) : M (list json) :=
  match starts with
  | [] => ret results
  | i :: more =>
      results' <- fetch_group paths batch_size i results ;;
      fetch_groups paths batch_size more results'
  end.

(** [fetch_multiple_data(client, paths, batch_size)] *)
Definition fetch_multiple_data (paths : list string) (batch_size : Z)
    : M (list json) :=
  starts <- lift (range3 0 (Z.of_nat (length paths)) batch_size) ;;
  fetch_groups paths batch_size starts [].

End Wrappers.

Module CachedDataFetcher.
Section Fetcher.

Variable R : Runtime.
Variable transport : nat -> Request -> Reply.

(** [self.cache]: path to (data, etag).  [self.client] is the client of
    the [World]. *)
Abbreviation Cache := (gmap string (json * json)).

(** [CachedDataFetcher.get]: the result, the cache and the world after
    the call.  [del self.cache[path]] is a [KeyError] on a missing key. *)
Definition get (path : string) (cache : Cache) (w : World)
    : result json * Cache * World :=
  let cached := default (JNull, JNull) (cache !! path) in
  let cached_data := fst cached in
  let cached_etag := snd cached in
  match get_data R transport path cached_etag w with
  | (Ok (data, etag), w1) =>
      match data with
      | JNull => (Ok cached_data, cache, w1)
      | _ => (Ok data, <[path := (data, etag)]> cache, w1)
      end
  | (Raise e, w1) =>
      match api_status e with
      | Some status =>
          if (status =? 404) && truthy cached_data then
            match cache !! path with
            | Some _ => (Raise e, delete path cache, w1)
            | None => (Raise (KeyError path), cache, w1)
            end
          else (Raise e, cache, w1)
      | None => (Raise e, cache, w1)
      end
  end.

End Fetcher.
End CachedDataFetcher.

(** ** A runtime and networks for worked examples *)

(** [int(s)] on a plain decimal literal with an optional sign. *)
Fixpoint digits (s : string) (acc : Z) : option Z :=
  match s with
  | EmptyString => Some acc
  | String c rest =>
      let n := nat_of_ascii c in
      if (Nat.leb 48 n && Nat.leb n 57)%bool
      then digits rest (10 * acc + Z.of_nat (n - 48))
      else None
  end.

Definition decimal (s : string) : option Z :=
  match s with
  | EmptyString => None
  | String "-" (String c rest) => option_map Z.opp (digits (String c rest) 0)
  | String "+" (String c rest) => digits (String c rest) 0
  | String "-" EmptyString | String "+" EmptyString => None
  | _ => digits s 0
  end.

(** The calendar year of an epoch time, in UTC. *)
Definition year_of (n : Z) : Z :=
  let z := n / 86400 + 719468 in
  let era := z / 146097 in
  let doe := z mod 146097 in
  let yoe := (doe - doe / 1460 + doe / 36524 - doe / 146096) / 365 in
  let doy := doe - (365 * yoe + yoe / 4 - yoe / 100) in
  let mp := (5 * doy + 2) / 153 in
  if mp <? 10 then yoe + era * 400 else yoe + era * 400 + 1.

(** The year as C keeps it, in 32 bits. *)
Definition c_year (n : Z) : Z :=
  if 2147483647 <? year_of n then year_of n - 4294967296 else year_of n.

(** [datetime.fromtimestamp] of CPython 3.11 on a 64-bit Linux whose
    local time is UTC: a time that does not fit the C type of times is
    an [OverflowError], one whose year does not fit the C type of years
    an [OSError] (errno 75), and a year outside 1..9999 a [ValueError];
    so is a time of the first day of year 1, for the day before it is
    looked up too. *)
Definition utc_fromtimestamp_error (n : Z) : option time_error :=
  if (n <? - 9223372036854775808) || (9223372036854775807 <? n) then
    Some (TimeOverflowError "timestamp out of range for platform time_t")
  else if (n <? -67768040609740800) || (67768036191676799 <? n) then
    Some (TimeOSError "[Errno 75] Value too large for defined data type")
  else if (c_year n <? 1) || (9999 <? c_year n) then
    Some (TimeValueError ("year " +:+ pretty (c_year n) +:+ " is out of range"))
  else if year_of (n - 86400) <? 1 then
    Some (TimeValueError "year 0 is out of range")
  else None.

(** [str(e)] for the exceptions of the examples. *)
Definition example_exn_str (e : exn) : string :=
  match e with
  | OpenDataAPIError (JStr m) _ _ | RateLimitError (JStr m) _ => m
  | OpenDataAPIError _ _ _ | RateLimitError _ _ => ""
  | JSONDecodeError m | ValueError m | OverflowError m | OSError m
  | Exception m | TransportError m => m
  | KeyError k => "'" +:+ k +:+ "'"
  | AttributeError t a =>
      "'" +:+ t +:+ "' object has no attribute '" +:+ a +:+ "'"
  | TypeError "list" => "list indices must be integers or slices, not str"
  | TypeError "str" => "string indices must be integers, not 'str'"
  | TypeError t => "'" +:+ t +:+ "' object is not subscriptable"
  end.

(** The runtime of the examples.  [py_int] agrees with [int] on signed
    decimal literals, [int_error] with its message on strings that need
    no escaping, [exn_str] with [str] on exceptions whose message is a
    string, under CPython 3.11.  [urljoin] and [py_str] are stand-ins:
    the example networks answer by call number and never read a URL,
    and every token and message of the examples is a string.  The
    clock is that of a machine just started. *)
Definition example_runtime : Runtime :=
  {| py_int := decimal;
     int_error := fun s =>
       "invalid literal for int() with base 10: '" +:+ s +:+ "'";
     fromtimestamp_error := utc_fromtimestamp_error;
     sleep_limit := 9223372035;
     sleep_limit_range := ltac:(lia);
     urljoin := fun base path => base +:+ "/" +:+ path;
     py_str := fun v => match v with JStr s => s | _ => "" end;
     exn_str := example_exn_str |}.

(** A network that gives the [n]-th scripted reply to the [n]-th
    request, and [fallback] afterwards. *)
Definition scripted (replies : list Reply) (fallback : Reply)
    : nat -> Request -> Reply :=
  fun n _ => nth n replies fallback.

(** An answer of the examples; one without JSON has an empty body, and
    [decode_error] is what [response.json()] says of that. *)
Definition response_of (status : Z) (hs : list (string * string))
    (b : option json) : Response :=
  {| status_code := status;
     headers := list_to_map (map (fun kv => (lower (fst kv), snd kv)) hs);
     body := b;
     decode_error := "Expecting value: line 1 column 1 (char 0)" |}.

Definition reply (status : Z) (hs : list (string * string))
    (b : option json) : Reply :=
  Answer (response_of status hs b).

Definition example_client : OpenDataAPIClient :=
  {| base_url := "http://localhost:3000/api/v1";
     access_token := JStr "your-access-token";
     refresh_token := JStr "your-refresh-token";
     rate_limit := {| limit := None; remaining := None; reset := None |} |}.

Definition example_world : World :=
  {| client := example_client; sent := []; sleeps := [] |}.

Definition payload (v : json) (etag : string) : option json :=
  Some (JObj [("data", v); ("metadata", JObj [("etag", JStr etag)])]).

(** ** Vocabulary of the properties *)

(** [m] moves every world to one related to it by [P]. *)
Definition keeps (P : World -> World -> Prop) {A} (m : M A) : Prop :=
  forall w, P w (snd (m w)).

(** The second world has the client's address and credentials and the
    pauses of the first; the rate-limit state and the requests sent may
    differ. *)
Definition quiet (w w' : World) : Prop :=
  base_url (client w') = base_url (client w) /\
  access_token (client w') = access_token (client w) /\
  refresh_token (client w') = refresh_token (client w) /\
  sleeps w' = sleeps w.

(** As [quiet], and no request was sent either. *)
Definition offline (w w' : World) : Prop :=
  quiet w w' /\ sent w' = sent w.

(** [m] raises no API error. *)
Definition plain {A} (m : M A) : Prop :=
  forall w e, fst (m w) = Raise e -> api_status e = None.

(** The rate-limit headers a response carries are integers, the reset
    one a time [datetime.fromtimestamp] accepts. *)
Definition int_header_ok (R : Runtime) (response : Response)
    (name : string) (accept : Z -> bool) : bool :=
  match header response name with
  | Some v => match py_int R v with Some n => accept n | None => false end
  | None => true
  end.

Definition rate_limit_headers_ok (R : Runtime) (response : Response) : bool :=
  int_header_ok R response "X-RateLimit-Limit" (fun _ => true) &&
  int_header_ok R response "X-RateLimit-Remaining" (fun _ => true) &&
  int_header_ok R response "X-RateLimit-Reset" (fromtimestamp_ok R).


(** The dict [fetch_multiple_data] records for [path], given how its
    fetch ended. *)
Definition record_of (R : Runtime) (path : string)
    (r : result (json * json)) : json :=
  match r with
  | Ok (data, etag) => success_record path data etag
  | Raise e => failure_record R path e
  end.

(** What the record [r] of a path must hold, given how the fetch of the
    path ended: the path; for a fetch that returned, [success] true with
    the data and the token; for one that raised, [success] false with
    the message of the exception. *)
Definition outcome_of (R : Runtime) (path : string)
    (fetch : result (json * json)) (r : json) : Prop :=
  getitem r "path" = Ok (JStr path) /\
  match fetch with
  | Ok (data, etag) =>
      getitem r "success" = Ok (JBool true) /\
      getitem r "data" = Ok data /\
      getitem r "etag" = Ok etag
  | Raise e =>
      getitem r "success" = Ok (JBool false) /\
      getitem r "error" = Ok (JStr (exn_str R e))
  end.

(** [fetched pausing w paths rs w']: from [w] the paths are fetched one
    after the other, each fetch starting in the world the one before
    left, [rs] holds their records in that order, and [w'] is the world
    at the end.  With [pausing] pauses of 5 seconds may come in
    between; without, no pause does. *)
Inductive fetched (R : Runtime) (transport : nat -> Request -> Reply)
    (pausing : bool) : World -> list string -> list json -> World -> Prop :=
| fetched_nil w :
    fetched R transport pausing w [] [] w
| fetched_path w path paths r rs w' :
    outcome_of R path (fst (get_data R transport path JNull w)) r ->
    fetched R transport pausing (snd (get_data R transport path JNull w))
      paths rs w' ->
    fetched R transport pausing w (path :: paths) (r :: rs) w'
| fetched_pause w paths rs w' :
    pausing = true ->
    fetched R transport pausing (record_sleep 5 w) paths rs w' ->
    fetched R transport pausing w paths rs w'.





(** *** Statements of the specification that the code does not meet *)




(** *** Networks of the examples *)

Definition problem (detail : string) : option json :=
  Some (JObj [("detail", JStr detail)]).

(** A 401, then the refreshed tokens, then the data. *)
Definition expired_then_fresh : nat -> Request -> Reply :=
  scripted
    [reply 401 [] (problem "token expired");
     reply 200 [] (Some (JObj [("access_token", JStr "a2");
                               ("refresh_token", JStr "r2")]));
     reply 200 [] (payload (JNum 7) "etag1")]
    (Broken "connection refused").

(** A server that always answers 429 with the given Retry-After. *)
Definition limited (retry_after : string) : Response :=
  response_of 429 [("Retry-After", retry_after)] (problem "slow down").

Definition always_limited (retry_after : string) : nat -> Request -> Reply :=
  fun _ _ => Answer (limited retry_after).

(** A server that always answers with the same response. *)
Definition always (response : Response) : nat -> Request -> Reply :=
  fun _ _ => Answer response.

(** A 200 with data that gives the reset time of the rate limit. *)
Definition reset_at (v : string) : Response :=
  response_of 200 [("X-RateLimit-Reset", v)] (payload (JNum 1) "e1").


Definition gone : Response := response_of 404 [] (problem "not found").


(** A not-modified answer to a conditional fetch. *)
Definition not_modified : nat -> Request -> Reply :=
  scripted [reply 304 [] None] (Broken "connection refused").

(** A resource with an empty list as data, then gone. *)
Definition empty_then_gone : nat -> Request -> Reply :=
  scripted
    [reply 200 [] (payload (JArr []) "e1");
     reply 404 [] (problem "not found")]
    (Broken "connection refused").

(** Three fetches, the second one failing, with little headroom left
    after the first. *)
Definition low_headroom : nat -> Request -> Reply :=
  scripted
    [reply 200 [("X-RateLimit-Remaining", "5")] (payload (JNum 1) "e1");
     reply 404 [] None;
     reply 200 [] (payload (JNum 3) "e3")]
    (Broken "connection refused").

(** ** The rest of the module: constructors and error attributes *)

(** [s.rstrip('/')] *)
Fixpoint rstrip_slash (s : string) : string :=
  match s with
  | EmptyString => EmptyString
  | String c rest =>
      match rstrip_slash rest with
      | EmptyString =>
          if Ascii.eqb c "/" then EmptyString else String c EmptyString
      | String c' rest' => String c (String c' rest')
      end
  end.

(** A run of [n] slashes. *)
Fixpoint slashes (n : nat) : string :=
  match n with
  | O => EmptyString
  | S n' => String "/" (slashes n')
  end.

(** [OpenDataAPIClient.__init__]: the arguments are given explicitly
    ([None] is [JNull]); the [requests.Session] it creates is the
    network of the [World]. *)
Definition OpenDataAPIClient__init__ (base_url : string)
    (access_token refresh_token : json) : OpenDataAPIClient :=
  {| base_url := rstrip_slash base_url;
     access_token := access_token;
     refresh_token := refresh_token;
     rate_limit := {| limit := None; remaining := None; reset := None |} |}.

(** [CachedDataFetcher.__init__]: the cache starts empty. *)
Definition CachedDataFetcher__init__ : gmap string (json * json) := ∅.

(** [e.error_type] and [e.retry_after], the attributes the constructors
    of [OpenDataAPIError] and [RateLimitError] set; other exceptions
    have neither. *)
Definition error_type_attr (e : exn) : result json :=
  match e with
  | OpenDataAPIError _ _ error_type => Ok error_type
  | RateLimitError _ _ => Ok (JStr "rate-limit-exceeded")
  | _ => Raise (AttributeError (class_name e) "error_type")
  end.

Definition retry_after_attr (e : exn) : result json :=
  match e with
  | OpenDataAPIError _ _ _ => Ok JNull
  | RateLimitError _ retry_after => Ok (JNum retry_after)
  | _ => Raise (AttributeError (class_name e) "retry_after")
  end.

(** *** Vocabulary of the further properties *)

(** The client's address and credentials are the same in both worlds. *)
Definition credentials_kept (w w' : World) : Prop :=
  base_url (client w') = base_url (client w) /\
  access_token (client w') = access_token (client w) /\
  refresh_token (client w') = refresh_token (client w).

(** Every entry of the cache holds data that is not [None]. *)
Definition cache_filled (cache : gmap string (json * json)) : Prop :=
  forall path data etag, cache !! path = Some (data, etag) -> data <> JNull.

(** *** More answers for the examples *)



Definition fresh : Response := response_of 200 [] (payload (JNum 7) "etag1").

Definition no_content : Response := response_of 204 [] None.

(** A body whose data is [null]. *)
Definition null_data : Response := response_of 200 [] (payload JNull "etag1").

Definition fresh_then_null : nat -> Request -> Reply :=
  scripted [Answer fresh; Answer null_data] (Broken "connection refused").

(** A world whose client holds no token. *)
Definition anonymous_world : World :=
  {| client := OpenDataAPIClient__init__ "http://localhost:3000/api/v1/"
                 JNull JNull;
     sent := []; sleeps := [] |}.

(** * Properties *)

(** ** Frame rules: what a statement leaves alone *)

Section Frame.

Variable P : World -> World -> Prop.
Hypothesis P_refl : forall w, P w w.
Hypothesis P_trans : forall a b c, P a b -> P b c -> P a c.

Lemma keeps_ret {A} (a : A) : keeps P (ret a).
Proof. intros w. apply P_refl. Qed.

Lemma keeps_raise {A} (e : exn) : keeps P (@raise A e).
Proof. intros w. apply P_refl. Qed.

Lemma keeps_lift {A} (r : result A) : keeps P (lift r).
Proof. intros w. apply P_refl. Qed.

Lemma keeps_gets {A} (f : World -> A) : keeps P (gets f).
Proof. intros w. apply P_refl. Qed.

Lemma keeps_bind {A B} (m : M A) (k : A -> M B) :
  keeps P m -> (forall a, keeps P (k a)) -> keeps P (bind m k).
Proof.
  intros Hm Hk w. unfold bind.
  specialize (Hm w). destruct (m w) as [[a | e] w1]; simpl in *.
  - eapply P_trans; [exact Hm | apply Hk].
  - exact Hm.
Qed.

Lemma keeps_try_except {A} (m : M A) (h : exn -> option (M A)) :
  keeps P m -> (forall e handler, h e = Some handler -> keeps P handler) ->
  keeps P (try_except m h).
Proof.
  intros Hm Hh w. unfold try_except.
  specialize (Hm w). destruct (m w) as [[a | e] w1]; simpl in *.
  - exact Hm.
  - destruct (h e) as [handler |] eqn:He; simpl.
    + eapply P_trans; [exact Hm | eapply Hh; eauto].
    + exact Hm.
Qed.

Lemma keeps_modify (f : World -> World) :
  (forall w, P w (f w)) -> keeps P (modify f).
Proof. intros Hf w. apply Hf. Qed.

Lemma keeps_if {A} (b : bool) (m1 m2 : M A) :
  keeps P m1 -> keeps P m2 -> keeps P (if b then m1 else m2).
Proof. destruct b; auto. Qed.

End Frame.

(** A run is its result and its final world. *)
Lemma run_fst {A} (m : M A) (w : World) (r : result A) :
  fst (m w) = r -> m w = (r, snd (m w)).
Proof. intros <-. apply surjective_pairing. Qed.

Lemma quiet_refl w : quiet w w.
Proof. unfold quiet; auto. Qed.

Lemma quiet_trans a b c : quiet a b -> quiet b c -> quiet a c.
Proof. unfold quiet. intuition congruence. Qed.

Lemma offline_refl w : offline w w.
Proof. split; [apply quiet_refl | reflexivity]. Qed.

Lemma offline_trans a b c : offline a b -> offline b c -> offline a c.
Proof.
  intros [H1 H2] [H3 H4]. split; [eapply quiet_trans; eauto | congruence].
Qed.

Lemma offline_quiet {A} (m : M A) : keeps offline m -> keeps quiet m.
Proof. intros H w. apply H. Qed.

Lemma offline_set_rate_limit f w : offline w (set_rate_limit f w).
Proof. repeat split. Qed.

Section ClientFrame.

Variable R : Runtime.
Variable transport : nat -> Request -> Reply.

Lemma int_offline s : keeps offline (int R s).
Proof.
  unfold int. destruct (py_int R s).
  - apply keeps_ret, offline_refl.
  - apply keeps_raise, offline_refl.
Qed.

Lemma _update_rate_limit_offline response :
  keeps offline (_update_rate_limit R response).
Proof.
  unfold _update_rate_limit.
  repeat (apply keeps_bind; [exact offline_trans | | intros ?]);
    repeat match goal with
    | |- keeps _ (match ?x with _ => _ end) => destruct x
    | |- keeps _ (bind _ _) => apply keeps_bind; [exact offline_trans | | intros ?]
    | |- keeps _ (int _ _) => apply int_offline
    | |- keeps _ (ret _) => apply keeps_ret, offline_refl
    | |- keeps _ (raise _) => apply keeps_raise, offline_refl
    | |- keeps _ (modify _) => apply keeps_modify, offline_set_rate_limit
    end.
Qed.

Ltac frame_step rel_refl rel_trans :=
  repeat match goal with
  | |- keeps _ (match ?x with _ => _ end) => destruct x
  | |- keeps _ (bind _ _) => apply keeps_bind; [exact rel_trans | | intros ?]
  | |- keeps _ (try_except _ _) =>
      apply keeps_try_except; [exact rel_trans | | intros ? ? ?]
  | |- keeps _ (ret _) => apply keeps_ret, rel_refl
  | |- keeps _ (raise _) => apply keeps_raise, rel_refl
  | |- keeps _ (lift _) => apply keeps_lift, rel_refl
  | |- keeps _ (gets _) => apply keeps_gets, rel_refl
  | H : match ?x with _ => _ end = Some _ |- _ => destruct x
  | H : Some _ = Some _ |- _ => inversion H; subst; clear H
  | H : None = Some _ |- _ => discriminate H
  end.

Lemma error_response_offline response :
  keeps offline (error_response R response).
Proof.
  unfold error_response, response_json.
  frame_step offline_refl offline_trans; try apply int_offline.
Qed.

Lemma read_response_offline response :
  keeps offline (read_response R response).
Proof.
  unfold read_response, response_json.
  frame_step offline_refl offline_trans. apply error_response_offline.
Qed.

(** What [_request] does once the network has answered. *)
Lemma _request_answer method path kwargs w response :
  transport (length (sent w)) (build_request R method path kwargs (client w))
    = Answer response ->
  _request R transport method path kwargs w
    = (_update_rate_limit R response ;; read_response R response)
        (record_request (build_request R method path kwargs (client w)) w).
Proof.
  intros H. unfold _request, bind at 1 2, gets, session_request.
  simpl. rewrite H. reflexivity.
Qed.

Lemma _request_broken method path kwargs w what :
  transport (length (sent w)) (build_request R method path kwargs (client w))
    = Broken what ->
  _request R transport method path kwargs w
    = (Raise (TransportError what),
       record_request (build_request R method path kwargs (client w)) w).
Proof.
  intros H. unfold _request, bind, gets, session_request.
  simpl. rewrite H. reflexivity.
Qed.

Lemma quiet_record_request req w : quiet w (record_request req w).
Proof. repeat split. Qed.

Lemma _request_quiet method path kwargs :
  keeps quiet (_request R transport method path kwargs).
Proof.
  intros w.
  destruct (transport (length (sent w))
              (build_request R method path kwargs (client w))) as [response | what] eqn:H.
  - rewrite (_request_answer _ _ _ _ _ H).
    eapply quiet_trans; [apply quiet_record_request |].
    apply offline_quiet.
    apply keeps_bind; [exact offline_trans | apply _update_rate_limit_offline |].
    intros _. apply read_response_offline.
  - rewrite (_request_broken _ _ _ _ _ H). apply quiet_record_request.
Qed.

(** Each call of [_request] puts exactly one request on the wire, the
    one built from the client as it is when the call starts. *)
Lemma _request_sent method path kwargs w :
  sent (snd (_request R transport method path kwargs w))
    = (sent w ++ [build_request R method path kwargs (client w)])%list.
Proof.
  destruct (transport (length (sent w))
              (build_request R method path kwargs (client w))) as [response | what] eqn:H.
  - rewrite (_request_answer _ _ _ _ _ H).
    assert (Hk : keeps offline
                   (_update_rate_limit R response ;; read_response R response)).
    { apply keeps_bind; [exact offline_trans | apply _update_rate_limit_offline |].
      intros _. apply read_response_offline. }
    destruct (Hk (record_request (build_request R method path kwargs (client w)) w))
      as [_ Hs].
    rewrite Hs. reflexivity.
  - rewrite (_request_broken _ _ _ _ _ H). reflexivity.
Qed.

Lemma get_data_quiet path etag : keeps quiet (get_data R transport path etag).
Proof.
  unfold get_data.
  frame_step quiet_refl quiet_trans; try apply _request_quiet.
Qed.

End ClientFrame.

(** ** The client *)

Section ClientProperties.

Variable R : Runtime.
Variable transport : nat -> Request -> Reply.

(** The health checks send their request without an Authorization
    header, whatever token the client holds. *)
Lemma check_health_unauthenticated w :
  exists req,
    sent (snd (check_health R transport w)) = (sent w ++ [req])%list /\
    req_headers req !! "Authorization" = None.
Proof.
  exists (build_request R "GET" "/../health" no_kwargs
            (client (set_access_token JNull w))).
  split.
  - unfold check_health, bind, gets, modify, try_finally. simpl.
    pose proof (_request_sent R transport "GET" "/../health" no_kwargs
                  (set_access_token JNull w)) as Hs.
    destruct (_request R transport "GET" "/../health" no_kwargs
                (set_access_token JNull w)) as [r w1].
    simpl in *. exact Hs.
  - unfold build_request. simpl.
    rewrite lookup_insert_ne by discriminate. apply lookup_empty.
Qed.

(** C9. Whether [check_health] or [check_detailed_health] returns or
    raises, the client's access token and refresh token afterwards are
    the ones it had before the call. *)
Theorem check_health_restores_credentials w :
  (access_token (client (snd (check_health R transport w)))
     = access_token (client w) /\
   refresh_token (client (snd (check_health R transport w)))
     = refresh_token (client w)) /\
  (access_token (client (snd (check_detailed_health R transport w)))
     = access_token (client w) /\
   refresh_token (client (snd (check_detailed_health R transport w)))
     = refresh_token (client w)).
Proof.
  split.
  - unfold check_health, bind, gets, modify, try_finally. simpl.
    pose proof (_request_quiet R transport "GET" "/../health" no_kwargs
                  (set_access_token JNull w)) as (_ & _ & Hr & _).
    destruct (_request R transport "GET" "/../health" no_kwargs
                (set_access_token JNull w)) as [r w1].
    simpl in *. split; [reflexivity | exact Hr].
  - unfold check_detailed_health, bind, gets, modify, try_finally. simpl.
    pose proof (_request_quiet R transport "GET" "/../health/detailed" no_kwargs
                  (set_access_token JNull w)) as (_ & _ & Hr & _).
    destruct (_request R transport "GET" "/../health/detailed" no_kwargs
                (set_access_token JNull w)) as [r w1].
    simpl in *. split; [reflexivity | exact Hr].
Qed.

(** C10. When the logout request raises, [logout] raises the same
    exception and both tokens are what they were; when it returns,
    [logout] returns with both tokens set to [None]. *)
Theorem logout_clears_after_success w :
  match _request R transport "POST" "/auth/logout" no_kwargs w with
  | (Raise e, w1) =>
      logout R transport w = (Raise e, w1) /\
      access_token (client w1) = access_token (client w) /\
      refresh_token (client w1) = refresh_token (client w)
  | (Ok _, w1) =>
      fst (logout R transport w) = Ok tt /\
      access_token (client (snd (logout R transport w))) = JNull /\
      refresh_token (client (snd (logout R transport w))) = JNull
  end.
Proof.
  unfold logout, bind, modify.
  pose proof (_request_quiet R transport "POST" "/auth/logout" no_kwargs w)
    as (_ & Ha & Hr & _).
  destruct (_request R transport "POST" "/auth/logout" no_kwargs w)
    as [[v | e] w1]; simpl in *; auto.
Qed.

End ClientProperties.

(** A failed logout of the example client: the server answers 500 and
    the tokens stay. *)
Example logout_failure :
  let w := snd (logout example_runtime
                  (scripted [reply 500 [] None] (Broken "connection refused"))
                  example_world) in
  access_token (client w) = JStr "your-access-token" /\
  refresh_token (client w) = JStr "your-refresh-token".
Proof. vm_compute. split; reflexivity. Qed.

(** C1. A conditional fetch of ["a/b.json"] with the token ["etag1"] that
    the server answers with 304 and an empty body: [get_data] raises the
    [JSONDecodeError] of [response.json()], since a 304 response is [ok]
    and [_request] never raises an API error for it. *)
Theorem get_data_not_modified_raises :
  fst (get_data example_runtime not_modified "a/b.json" (JStr "etag1")
         example_world)
    = Raise (JSONDecodeError "Expecting value: line 1 column 1 (char 0)").
Proof. vm_compute. reflexivity. Qed.

(** ** Reading a response *)

Section Reading.

Variable R : Runtime.
Variable transport : nat -> Request -> Reply.

Lemma _update_rate_limit_returns response w :
  rate_limit_headers_ok R response = true ->
  exists w', _update_rate_limit R response w = (Ok tt, w').
Proof.
  unfold rate_limit_headers_ok, int_header_ok, _update_rate_limit.
  intros H. apply andb_prop in H as [H H3]. apply andb_prop in H as [H1 H2].
  unfold bind, int, modify, ret, raise.
  destruct (header response "X-RateLimit-Limit") as [v1 |];
    [destruct (py_int R v1); [| discriminate] |];
  (destruct (header response "X-RateLimit-Remaining") as [v2 |];
    [destruct (py_int R v2); [| discriminate] |]);
  (destruct (header response "X-RateLimit-Reset") as [v3 |];
    [destruct (py_int R v3) as [n3 |]; [| discriminate] |]);
  try (unfold fromtimestamp_ok in H3;
       destruct (fromtimestamp_error R n3); [discriminate H3 |]);
  eauto.
Qed.

Lemma plain_bind {A B} (m : M A) (k : A -> M B) :
  plain m -> (forall a, plain (k a)) -> plain (bind m k).
Proof.
  intros Hm Hk w e. unfold bind. specialize (Hm w).
  destruct (m w) as [[a | e'] w1]; simpl in *.
  - apply Hk.
  - intros H. apply Hm. inversion H. reflexivity.
Qed.

Lemma plain_ret {A} (a : A) : plain (ret a).
Proof. intros w e H. discriminate H. Qed.

Lemma plain_modify f : plain (modify f).
Proof. intros w e H. discriminate H. Qed.

Lemma plain_raise {A} e : api_status e = None -> plain (@raise A e).
Proof. intros He w e' H. inversion H; subst. exact He. Qed.

Lemma plain_int s : plain (int R s).
Proof.
  unfold int. destruct (py_int R s); [apply plain_ret | now apply plain_raise].
Qed.

Lemma _update_rate_limit_plain response :
  plain (_update_rate_limit R response).
Proof.
  unfold _update_rate_limit.
  repeat match goal with
  | |- plain (match ?x with _ => _ end) => destruct x
  | |- plain (bind _ _) => apply plain_bind; [| intros ?]
  | |- plain (int _ _) => apply plain_int
  | |- plain (ret _) => apply plain_ret
  | |- plain (modify _) => apply plain_modify
  | |- plain (raise (time_exn ?te)) =>
      apply plain_raise; destruct te; reflexivity
  | |- plain (raise _) => now apply plain_raise
  end.
Qed.



(** A response that is [ok] never becomes an API error. *)
Lemma read_response_ok response w e :
  ok response = true ->
  fst (read_response R response w) = Raise e ->
  e = JSONDecodeError (decode_error response).
Proof.
  intros Hok. unfold read_response, response_json. rewrite Hok.
  destruct (status_code response =? 204); [discriminate |].
  destruct (body response); [discriminate |].
  simpl. intros H. inversion H. reflexivity.
Qed.




(** With well-formed rate-limit headers, what [_request] returns is what
    reading the response returns. *)
Lemma _request_reads method path kwargs w response :
  transport (length (sent w)) (build_request R method path kwargs (client w))
    = Answer response ->
  rate_limit_headers_ok R response = true ->
  exists w', _request R transport method path kwargs w
             = read_response R response w'.
Proof.
  intros Ht Hh. rewrite (_request_answer _ _ _ _ _ _ _ Ht).
  destruct (_update_rate_limit_returns response
              (record_request (build_request R method path kwargs (client w)) w) Hh)
    as [w' Hu].
  exists w'. unfold bind. rewrite Hu. reflexivity.
Qed.

(** An [ok] response, 304 among them, never makes [_request] raise an
    API error: the 304 clause of [get_data] is never entered through
    it. *)
Lemma _request_ok_no_api_error method path kwargs w response e :
  transport (length (sent w)) (build_request R method path kwargs (client w))
    = Answer response ->
  ok response = true ->
  fst (_request R transport method path kwargs w) = Raise e ->
  api_status e = None.
Proof.
  intros Ht Hok. rewrite (_request_answer _ _ _ _ _ _ _ Ht). unfold bind.
  destruct (_update_rate_limit R response _) as [[[] | e'] w'] eqn:Hu.
  - intros H. apply read_response_ok in H; [subst; reflexivity | exact Hok].
  - simpl. intros H. inversion H; subst.
    eapply _update_rate_limit_plain. rewrite Hu. reflexivity.
Qed.



End Reading.

(** A 304 answer with an empty body: [get_data] raises what
    [response.json()] raises. *)
Lemma not_modified_unhandled R transport path etag w response :
  transport (length (sent w))
    (build_request R "GET" ("/data/" +:+ path)
       {| kw_headers := Some (if truthy etag
                              then <["If-None-Match" := etag]> ∅ else ∅);
          kw_json := None |} (client w))
    = Answer response ->
  status_code response = 304 ->
  rate_limit_headers_ok R response = true ->
  body response = None ->
  fst (get_data R transport path etag w)
    = Raise (JSONDecodeError (decode_error response)).
Proof.
  intros Ht Hs Hh Hb.
  destruct (_request_reads R transport _ _ _ _ _ Ht Hh) as [w' Hr].
  unfold get_data, try_except, bind. rewrite Hr.
  unfold read_response, ok, response_json. rewrite Hs, Hb. reflexivity.
Qed.





(** ** The retry wrapper *)

Section Retry.

Variable R : Runtime.
Variable transport : nat -> Request -> Reply.

Lemma range_two n :
  2 <= n -> exists rest, range n = 0 :: 1 :: rest.
Proof.
  intros H. unfold range.
  destruct (Z.to_nat n) as [| [| k]] eqn:E; try lia.
  eexists. reflexivity.
Qed.

Lemma sleep_records secs w :
  0 <= secs <= sleep_limit R -> sleep R secs w = (Ok tt, record_sleep secs w).
Proof.
  intros H. pose proof (sleep_limit_range R) as HL. unfold sleep.
  destruct (secs <? - sleep_max) eqn:E1;
    [apply Z.ltb_lt in E1; unfold sleep_max in *; lia |].
  destruct (sleep_max <? secs) eqn:E2;
    [apply Z.ltb_lt in E2; unfold sleep_max in *; lia |].
  destruct (secs <? 0) eqn:E3; [apply Z.ltb_lt in E3; lia |].
  destruct (sleep_limit R <? secs) eqn:E4; [apply Z.ltb_lt in E4; lia |].
  reflexivity.
Qed.


(** An attempt that ends in a 401 with a later attempt left: the token
    is refreshed, and the loop goes on unless the refresh raised. *)
Lemma retry_loop_unauthorized path max_retries attempt rest w message
    error_type w1 :
  get_data R transport path JNull w
    = (Raise (OpenDataAPIError message 401 error_type), w1) ->
  attempt < max_retries - 1 ->
  retry_loop R transport path max_retries (attempt :: rest) w
    = (refresh_access_token R transport ;;
       retry_loop R transport path max_retries rest) w1.
Proof.
  intros Hg Ha. simpl. rewrite Hg.
  replace (attempt <? max_retries - 1) with true
    by (symmetry; apply Z.ltb_lt; exact Ha).
  reflexivity.
Qed.



(** C4. When an attempt of [fetch_with_retry] ends in an API error with
    status 401 and a later attempt is left, the access token is
    refreshed and the loop goes on with the next attempt; so when the
    first fetch raises a 401, the refresh returns and the second fetch
    returns, [fetch_with_retry] returns the data of the second fetch. *)
Theorem fetch_with_retry_refreshes path max_retries :
  (forall attempt rest w message error_type w1,
     get_data R transport path JNull w
       = (Raise (OpenDataAPIError message 401 error_type), w1) ->
     attempt < max_retries - 1 ->
     retry_loop R transport path max_retries (attempt :: rest) w
       = (refresh_access_token R transport ;;
          retry_loop R transport path max_retries rest) w1) /\
  (forall w message error_type w1 tokens w2 data etag w3,
     2 <= max_retries ->
     get_data R transport path JNull w
       = (Raise (OpenDataAPIError message 401 error_type), w1) ->
     refresh_access_token R transport w1 = (Ok tokens, w2) ->
     get_data R transport path JNull w2 = (Ok (data, etag), w3) ->
     fetch_with_retry R transport path max_retries w = (Ok data, w3)).
Proof.
  split.
  - intros attempt rest w message error_type w1 Hg Ha.
    exact (retry_loop_unauthorized _ _ _ _ _ _ _ _ Hg Ha).
  - intros w message error_type w1 tokens w2 data etag w3 Hm Hg Hf Hg2.
    unfold fetch_with_retry. destruct (range_two max_retries Hm) as [rest ->].
    rewrite (retry_loop_unauthorized _ _ _ _ _ _ _ _ Hg) by lia.
    unfold bind. rewrite Hf. simpl. rewrite Hg2. reflexivity.
Qed.


End Retry.

Lemma fetch_with_retry_refreshes_witness :
  fst (fetch_with_retry example_runtime expired_then_fresh "p" 3 example_world)
    = Ok (JNum 7).
Proof.
  pose (w1 := snd (get_data example_runtime expired_then_fresh "p" JNull
                     example_world)).
  pose (w2 := snd (refresh_access_token example_runtime expired_then_fresh w1)).
  pose (w3 := snd (get_data example_runtime expired_then_fresh "p" JNull w2)).
  rewrite (proj2 (fetch_with_retry_refreshes example_runtime
                    expired_then_fresh "p" 3)
             example_world (JStr "token expired") (JStr "") w1
             (JObj [("access_token", JStr "a2"); ("refresh_token", JStr "r2")])
             w2 (JNum 7) (JStr "etag1") w3).
  - reflexivity.
  - lia.
  - apply run_fst. vm_compute. reflexivity.
  - apply run_fst. vm_compute. reflexivity.
  - apply run_fst. vm_compute. reflexivity.
Defined.


(** The two waits of that run. *)
Example fetch_with_retry_limited_sleeps :
  sleeps (snd (fetch_with_retry example_runtime (always_limited "2") "p" 2
                 example_world)) = [2; 2].
Proof. vm_compute. reflexivity. Qed.


(** ** The cache wrapper *)

Section CacheProperties.

Variable R : Runtime.
Variable transport : nat -> Request -> Reply.

(** An entry whose data is truthy is removed when the fetch fails with
    status 404, and the error is raised. *)
Lemma get_evicts path cache w data etag e w1 :
  cache !! path = Some (data, etag) ->
  truthy data = true ->
  get_data R transport path etag w = (Raise e, w1) ->
  api_status e = Some 404 ->
  CachedDataFetcher.get R transport path cache w
    = (Raise e, delete path cache, w1).
Proof.
  intros Hc Ht Hg He. unfold CachedDataFetcher.get.
  rewrite Hc. simpl. rewrite Hg, He, Ht. reflexivity.
Qed.

End CacheProperties.

(** C5. The wrapper caches a resource whose data is the empty list; the
    next [get] of it is answered with 404.  That [get] raises the 404
    error, and the entry is still in the cache: the guard before the
    [del] tests the truth value of the cached data, not the presence of
    the entry. *)
Theorem get_keeps_falsy_entry :
  let first := CachedDataFetcher.get example_runtime empty_then_gone "x" ∅
                 example_world in
  let second := CachedDataFetcher.get example_runtime empty_then_gone "x"
                  (snd (fst first)) (snd first) in
  fst (fst first) = Ok (JArr []) /\
  snd (fst first) !! "x" = Some (JArr [], JStr "e1") /\
  fst (fst second) = Raise (OpenDataAPIError (JStr "not found") 404 (JStr "")) /\
  snd (fst second) !! "x" = Some (JArr [], JStr "e1").
Proof. vm_compute. repeat split; reflexivity. Qed.

(** ** The batch fetcher *)

Section Lists.

Context {A : Type}.

Lemma chunks_cover (b : nat) (c : nat) : forall l : list A,
  (length l <= c * b)%nat ->
  concat (map (fun k => firstn b (skipn (k * b) l)) (seq 0 c)) = l.
Proof.
  induction c as [| c IH]; intros l Hl.
  - destruct l; [reflexivity | simpl in Hl; lia].
  - simpl seq. rewrite <- seq_shift, map_cons, map_map. simpl concat.
    transitivity (firstn b l ++ skipn b l)%list; [| apply firstn_skipn].
    f_equal. rewrite <- (IH (skipn b l)) by (rewrite length_skipn; lia).
    f_equal. apply map_ext. intros k. rewrite skipn_skipn.
    f_equal. f_equal. lia.
Qed.

Lemma slice_chunk (l : list A) (k : nat) (step : Z) :
  0 < step ->
  slice l (0 + Z.of_nat k * step) (0 + Z.of_nat k * step + step)
    = firstn (Z.to_nat step) (skipn (k * Z.to_nat step) l).
Proof.
  intros Hs. unfold slice.
  set (n := Z.of_nat (length l)).
  assert (Hk : Z.to_nat (Z.of_nat k * step) = (k * Z.to_nat step)%nat).
  { rewrite Z2Nat.inj_mul by lia. rewrite Nat2Z.id. reflexivity. }
  replace (0 + Z.of_nat k * step <? 0) with false by (symmetry; apply Z.ltb_ge; nia).
  replace (0 + Z.of_nat k * step + step <? 0) with false
    by (symmetry; apply Z.ltb_ge; nia).
  rewrite Z.add_0_l.
  destruct (Z_lt_le_dec (Z.of_nat k * step) n) as [Hlt | Hge].
  - rewrite (Z.min_l (Z.of_nat k * step) n) by lia. rewrite Hk.
    destruct (Z_le_gt_dec (Z.of_nat k * step + step) n) as [Hle | Hgt].
    + rewrite Z.min_l by lia. f_equal. f_equal. lia.
    + rewrite Z.min_r by lia.
      assert (Hlen : length (skipn (k * Z.to_nat step) l)
                     = Z.to_nat (n - Z.of_nat k * step)).
      { rewrite length_skipn. subst n. lia. }
      rewrite !firstn_all2; [reflexivity | lia | lia].
  - rewrite !Z.min_r by lia. rewrite Z.sub_diag. simpl firstn.
    rewrite (skipn_all2 l (n := k * Z.to_nat step)); [destruct (Z.to_nat step); reflexivity |].
    subst n. lia.
Qed.

End Lists.

Lemma range3_forward start stop step :
  0 < step ->
  range3 start stop step
    = Ok (map (fun k => start + Z.of_nat k * step)
              (seq 0 (Z.to_nat ((stop - start + step - 1) / step)))).
Proof.
  intros H. unfold range3.
  replace (step =? 0) with false by (symmetry; apply Z.eqb_neq; lia).
  replace (0 <? step) with true by (symmetry; apply Z.ltb_lt; lia).
  reflexivity.
Qed.

(** [k] is below the number of groups exactly when group [k] starts
    inside the list. *)
Lemma group_count n step k :
  0 < step -> 0 <= n -> 0 <= k ->
  k < (n - 0 + step - 1) / step <-> k * step < n.
Proof.
  intros Hs Hn Hk. split; intros H.
  - destruct (Z_lt_le_dec (k * step) n) as [| Hge]; [assumption |].
    exfalso. assert ((n - 0 + step - 1) / step < k + 1); [| lia].
    apply Z.div_lt_upper_bound; nia.
  - assert (k + 1 <= (n - 0 + step - 1) / step); [| lia].
    apply Z.div_le_lower_bound; nia.
Qed.

(** The groups of the loop, one after the other, are the list. *)
Lemma slices_cover {A} (l : list A) (step : Z) :
  0 < step ->
  exists starts,
    range3 0 (Z.of_nat (length l)) step = Ok starts /\
    concat (map (fun i => slice l i (i + step)) starts) = l.
Proof.
  intros Hs. rewrite range3_forward by exact Hs. eexists. split; [reflexivity |].
  rewrite map_map.
  rewrite (map_ext _ (fun k => firstn (Z.to_nat step) (skipn (k * Z.to_nat step) l)))
    by (intros k; apply slice_chunk; exact Hs).
  apply chunks_cover.
  set (n := Z.of_nat (length l)).
  assert (Hq : n <= (n - 0 + step - 1) / step * step).
  { pose proof (Z.div_mod (n - 0 + step - 1) step ltac:(lia)) as Hd.
    pose proof (Z.mod_pos_bound (n - 0 + step - 1) step Hs) as Hm. lia. }
  assert (0 <= (n - 0 + step - 1) / step) by (apply Z.div_pos; lia).
  apply Nat2Z.inj_le. rewrite Nat2Z.inj_mul, !Z2Nat.id by lia. exact Hq.
Qed.

Section Batch.

Variable R : Runtime.
Variable transport : nat -> Request -> Reply.

(** One path of a batch: its record is appended, whether the fetch
    returned or raised. *)
Lemma fetch_one path results w :
  try_except
    (r <- get_data R transport path JNull ;;
     ret (results ++ [success_record path (fst r) (snd r)])%list)
    (fun e => Some (ret (results ++ [failure_record R path e])%list)) w
  = (Ok (results ++ [record_of R path (fst (get_data R transport path JNull w))])%list,
     snd (get_data R transport path JNull w)).
Proof.
  unfold try_except, bind, ret.
  destruct (get_data R transport path JNull w) as [[[data etag] | e] w1];
    reflexivity.
Qed.

(** The dict the code appends holds what the outcome of the fetch
    asks for. *)
Lemma record_outcome path (fetch : result (json * json)) :
  outcome_of R path fetch (record_of R path fetch).
Proof.
  destruct fetch as [[data etag] | e]; repeat split.
Qed.

Lemma fetched_pausing w paths rs w' :
  fetched R transport false w paths rs w' ->
  fetched R transport true w paths rs w'.
Proof.
  induction 1 as [w | w path paths r rs w' Ho _ IH | w paths rs w' Hp _ _].
  - apply fetched_nil.
  - apply fetched_path; assumption.
  - discriminate Hp.
Qed.

Lemma fetched_app w paths1 rs1 w1 paths2 rs2 w2 :
  fetched R transport true w paths1 rs1 w1 ->
  fetched R transport true w1 paths2 rs2 w2 ->
  fetched R transport true w (paths1 ++ paths2) (rs1 ++ rs2) w2.
Proof.
  intros H1 H2.
  induction H1 as [w | w path paths r rs w' Ho _ IH | w paths rs w' Hp _ IH].
  - exact H2.
  - simpl. apply fetched_path; [exact Ho | apply IH; exact H2].
  - apply fetched_pause; [exact Hp | apply IH; exact H2].
Qed.

Lemma fetched_then_pause w paths rs v :
  fetched R transport true w paths rs v ->
  fetched R transport true w paths rs (record_sleep 5 v).
Proof.
  intros H.
  rewrite <- (app_nil_r paths), <- (app_nil_r rs).
  eapply fetched_app; [exact H |].
  apply fetched_pause; [reflexivity | apply fetched_nil].
Qed.

(** The records are as many as the paths and name them in order. *)
Lemma fetched_paths pausing w paths rs w' :
  fetched R transport pausing w paths rs w' ->
  length rs = length paths /\
  map (fun r => getitem r "path") rs = map (fun path => Ok (JStr path)) paths.
Proof.
  induction 1 as [w | w path paths r rs w' [Hp _] _ [IHl IHm]
                    | w paths rs w' _ _ IH].
  - split; reflexivity.
  - simpl. rewrite IHl, IHm, Hp. split; reflexivity.
  - exact IH.
Qed.

Lemma fetch_batch_step path rest results w :
  fetch_batch R transport (path :: rest) results w
    = fetch_batch R transport rest
        (results ++ [record_of R path (fst (get_data R transport path JNull w))])%list
        (snd (get_data R transport path JNull w)).
Proof.
  simpl fetch_batch. unfold bind at 1. rewrite fetch_one. reflexivity.
Qed.

Lemma fetch_batch_records batch : forall results w,
  exists rs,
    fst (fetch_batch R transport batch results w) = Ok (results ++ rs)%list /\
    fetched R transport false w batch rs
      (snd (fetch_batch R transport batch results w)).
Proof.
  induction batch as [| path rest IH]; intros results w.
  - exists []. simpl. rewrite app_nil_r. split; [reflexivity | apply fetched_nil].
  - rewrite fetch_batch_step.
    destruct (IH (results ++ [record_of R path
                                (fst (get_data R transport path JNull w))])%list
                 (snd (get_data R transport path JNull w))) as (rs & Hrs & Hf).
    exists (record_of R path (fst (get_data R transport path JNull w)) :: rs).
    split.
    + rewrite Hrs, <- app_assoc. reflexivity.
    + apply fetched_path; [apply record_outcome | exact Hf].
Qed.

Lemma fetch_batch_quiet batch : forall results,
  keeps quiet (fetch_batch R transport batch results).
Proof.
  induction batch as [| path rest IH]; intros results.
  - apply keeps_ret, quiet_refl.
  - simpl. apply keeps_bind; [exact quiet_trans | | intros ?; apply IH].
    intros w. rewrite fetch_one. simpl. apply get_data_quiet.
Qed.

(** A pass of the outer loop: the batch, then the pause when the test
    before it holds. *)
Lemma fetch_group_steps paths batch_size i results w :
  fetch_group R transport paths batch_size i results w
    = match fetch_batch R transport (slice paths i (i + batch_size)) results w with
      | (Ok results', w1) =>
          (Ok results',
           if rate_limit_low paths batch_size i w1 then record_sleep 5 w1 else w1)
      | (Raise e, w1) => (Raise e, w1)
      end.
Proof.
  unfold fetch_group, bind, gets.
  destruct (fetch_batch R transport (slice paths i (i + batch_size)) results w)
    as [[results' | e] w1]; [| reflexivity].
  destruct (rate_limit_low paths batch_size i w1); [| reflexivity].
  rewrite (sleep_records R 5 w1)
    by (pose proof (sleep_limit_range R); lia).
  reflexivity.
Qed.

Lemma fetch_group_records paths batch_size i results w :
  exists rs,
    fst (fetch_group R transport paths batch_size i results w)
      = Ok (results ++ rs)%list /\
    fetched R transport false w (slice paths i (i + batch_size)) rs
      (snd (fetch_batch R transport (slice paths i (i + batch_size)) results w)) /\
    snd (fetch_group R transport paths batch_size i results w)
      = (let v := snd (fetch_batch R transport (slice paths i (i + batch_size))
                         results w) in
         if rate_limit_low paths batch_size i v then record_sleep 5 v else v).
Proof.
  destruct (fetch_batch_records (slice paths i (i + batch_size)) results w)
    as (rs & Hrs & Hf).
  exists rs. rewrite fetch_group_steps.
  destruct (fetch_batch R transport (slice paths i (i + batch_size)) results w)
    as [[results' | e] w1]; simpl in *; [| discriminate Hrs].
  repeat split; assumption.
Qed.

Lemma fetch_groups_records paths batch_size starts : forall results w,
  exists rs,
    fst (fetch_groups R transport paths batch_size starts results w)
      = Ok (results ++ rs)%list /\
    fetched R transport true w
      (concat (map (fun i => slice paths i (i + batch_size)) starts)) rs
      (snd (fetch_groups R transport paths batch_size starts results w)).
Proof.
  induction starts as [| i more IH]; intros results w.
  - exists []. simpl. rewrite app_nil_r. split; [reflexivity | apply fetched_nil].
  - simpl fetch_groups. unfold bind.
    destruct (fetch_group_records paths batch_size i results w)
      as (rs & Hrs & Hf & Hw).
    destruct (fetch_group R transport paths batch_size i results w)
      as [[results' | e] w1]; simpl in Hrs, Hw; [| discriminate Hrs].
    inversion Hrs; subst results'.
    destruct (IH (results ++ rs)%list w1) as (rs' & Hrs' & Hf').
    exists (rs ++ rs')%list. split.
    + rewrite Hrs', <- app_assoc. reflexivity.
    + simpl. eapply fetched_app; [| exact Hf'].
      apply fetched_pausing in Hf. rewrite Hw.
      destruct (rate_limit_low paths batch_size i _);
        [apply fetched_then_pause |]; exact Hf.
Qed.

(** C6. For a positive batch size [fetch_multiple_data] returns a list
    with one record per path, in the order of the paths.  The record of
    a path is the outcome of the fetch this call makes for it, each
    fetch starting in the world the one before left (with pauses in
    between): it holds the path, and [success] true with the data and
    the token when the fetch returned, or [success] false with the
    message of the exception when it raised.  A fetch that raises does
    not end the call. *)
Theorem fetch_multiple_data_outcomes paths batch_size w :
  0 < batch_size ->
  exists results,
    fst (fetch_multiple_data R transport paths batch_size w) = Ok results /\
    length results = length paths /\
    map (fun r => getitem r "path") results
      = map (fun path => Ok (JStr path)) paths /\
    fetched R transport true w paths results
      (snd (fetch_multiple_data R transport paths batch_size w)).
Proof.
  intros Hb. destruct (slices_cover paths batch_size Hb) as (starts & Hr & Hc).
  destruct (fetch_groups_records paths batch_size starts [] w) as (rs & Hrs & Hf).
  rewrite Hc in Hf.
  assert (Hrun : fetch_multiple_data R transport paths batch_size w
                 = fetch_groups R transport paths batch_size starts [] w).
  { unfold fetch_multiple_data, bind, lift. rewrite Hr. reflexivity. }
  rewrite Hrun. exists rs.
  destruct (fetched_paths _ _ _ _ _ Hf) as [Hl Hm].
  repeat split; assumption.
Qed.





End Batch.

Lemma fetch_multiple_data_outcomes_witness :
  exists results,
    fst (fetch_multiple_data example_runtime low_headroom ["p1"; "p2"; "p3"] 2
           example_world) = Ok results /\
    length results = length ["p1"; "p2"; "p3"] /\
    map (fun r => getitem r "path") results
      = map (fun path => Ok (JStr path)) ["p1"; "p2"; "p3"] /\
    fetched example_runtime low_headroom true example_world
      ["p1"; "p2"; "p3"] results
      (snd (fetch_multiple_data example_runtime low_headroom
              ["p1"; "p2"; "p3"] 2 example_world)).
Proof.
  exact (fetch_multiple_data_outcomes example_runtime low_headroom
           ["p1"; "p2"; "p3"] 2 example_world ltac:(lia)).
Defined.


(** Three paths in groups of two, with 5 requests left after the first
    fetch: three records in order, the second a failure, and one pause,
    taken between the two groups. *)
Example fetch_multiple_data_scenario :
  let run := fetch_multiple_data example_runtime low_headroom
               ["p1"; "p2"; "p3"] 2 example_world in
  fst run
    = Ok [success_record "p1" (JNum 1) (JStr "e1");
          failure_record example_runtime "p2"
            (OpenDataAPIError (JStr "HTTP 404 Error") 404 (JStr ""));
          success_record "p3" (JNum 3) (JStr "e3")] /\
  sleeps (snd run) = [5] /\
  length (sent (snd run)) = 3%nat.
Proof. vm_compute. repeat split; reflexivity. Qed.

(** * Further properties of the module *)

(** ** Requests on the wire *)

Lemma still_refl (w : World) : (fun a b : World => b = a) w w.
Proof. reflexivity. Qed.

Lemma still_trans (a b c : World) :
  (fun a b : World => b = a) a b -> (fun a b : World => b = a) b c ->
  (fun a b : World => b = a) a c.
Proof. simpl. congruence. Qed.

Ltac keeps_step rel_refl rel_trans :=
  repeat match goal with
  | |- keeps _ (match ?x with _ => _ end) => destruct x
  | |- keeps _ (bind _ _) => apply keeps_bind; [exact rel_trans | | intros ?]
  | |- keeps _ (try_except _ _) =>
      apply keeps_try_except; [exact rel_trans | | intros ? ? ?]
  | |- keeps _ (ret _) => apply keeps_ret, rel_refl
  | |- keeps _ (raise _) => apply keeps_raise, rel_refl
  | |- keeps _ (lift _) => apply keeps_lift, rel_refl
  | |- keeps _ (gets _) => apply keeps_gets, rel_refl
  | H : match ?x with _ => _ end = Some _ |- _ => destruct x
  | H : Some _ = Some _ |- _ => inversion H; subst; clear H
  | H : None = Some _ |- _ => discriminate H
  end.

Section Wire.

Variable R : Runtime.
Variable transport : nat -> Request -> Reply.

(** Reading a response changes nothing in the world. *)
Lemma read_response_still response :
  keeps (fun a b => b = a) (read_response R response).
Proof.
  unfold read_response, error_response, response_json, int.
  keeps_step still_refl still_trans.
Qed.

(** [get_data] puts exactly one request on the wire. *)
Lemma get_data_sent path etag w :
  sent (snd (get_data R transport path etag w))
    = (sent w ++ [build_request R "GET" ("/data/" +:+ path)
                    {| kw_headers := Some (if truthy etag
                                           then <["If-None-Match" := etag]> ∅
                                           else ∅);
                       kw_json := None |} (client w)])%list.
Proof.
  rewrite <- _request_sent with (transport := transport).
  unfold get_data, try_except, bind, lift, ret, raise.
  destruct (_request R transport "GET" ("/data/" +:+ path) _ w)
    as [[response | e] w1]; simpl.
  - destruct (getitem response "data") as [data | e]; simpl.
    + destruct (getitem response "metadata") as [metadata | e]; simpl.
      * destruct (getitem metadata "etag") as [etag' | e]; simpl;
          [reflexivity |].
        destruct (api_status e) as [st |]; [destruct (st =? 304) |]; reflexivity.
      * destruct (api_status e) as [st |]; [destruct (st =? 304) |]; reflexivity.
    + destruct (api_status e) as [st |]; [destruct (st =? 304) |]; reflexivity.
  - destruct (api_status e) as [st |]; [destruct (st =? 304) |]; reflexivity.
Qed.

(** X1. Each call of [_request] sends one request with the given method
    and JSON body, to [urljoin(base_url, path.lstrip('/'))], with
    Content-Type application/json; it carries "Bearer <token>" as
    Authorization when the access token is truthy, and otherwise only
    what the caller's headers hold under that name. *)
Theorem request_on_the_wire verb path kwargs w :
  exists req,
    sent (snd (_request R transport verb path kwargs w))
      = (sent w ++ [req])%list /\
    method req = verb /\
    url req = urljoin R (base_url (client w)) (lstrip_slash path) /\
    req_json req = kw_json kwargs /\
    req_headers req !! "Content-Type" = Some (JStr "application/json") /\
    (truthy (access_token (client w)) = true ->
       req_headers req !! "Authorization"
         = Some (JStr ("Bearer " +:+ format R (access_token (client w))))) /\
    (truthy (access_token (client w)) = false ->
       req_headers req !! "Authorization"
         = default ∅ (kw_headers kwargs) !! "Authorization").
Proof.
  exists (build_request R verb path kwargs (client w)).
  split; [apply _request_sent |].
  unfold build_request. simpl. repeat split.
  - destruct (truthy (access_token (client w))).
    + rewrite lookup_insert_ne by discriminate. apply lookup_insert_eq.
    + apply lookup_insert_eq.
  - intros ->. apply lookup_insert_eq.
  - intros ->. rewrite lookup_insert_ne by discriminate. reflexivity.
Qed.

(** X2. Both health checks send one GET request, to the [health] paths
    one level above the API prefix, and it carries no Authorization
    header whatever token the client holds. *)
Theorem health_checks_unauthenticated w :
  (exists req,
     sent (snd (check_health R transport w)) = (sent w ++ [req])%list /\
     method req = "GET" /\
     url req = urljoin R (base_url (client w)) "../health" /\
     req_headers req !! "Authorization" = None) /\
  (exists req,
     sent (snd (check_detailed_health R transport w)) = (sent w ++ [req])%list /\
     method req = "GET" /\
     url req = urljoin R (base_url (client w)) "../health/detailed" /\
     req_headers req !! "Authorization" = None).
Proof.
  split.
  - exists (build_request R "GET" "/../health" no_kwargs
              (client (set_access_token JNull w))).
    split; [| split; [reflexivity | split; [reflexivity |]]].
    + unfold check_health, bind, gets, modify, try_finally. simpl.
      pose proof (_request_sent R transport "GET" "/../health" no_kwargs
                    (set_access_token JNull w)) as Hs.
      destruct (_request R transport "GET" "/../health" no_kwargs
                  (set_access_token JNull w)) as [r w1].
      exact Hs.
    + unfold build_request. simpl.
      rewrite lookup_insert_ne by discriminate. apply lookup_empty.
  - exists (build_request R "GET" "/../health/detailed" no_kwargs
              (client (set_access_token JNull w))).
    split; [| split; [reflexivity | split; [reflexivity |]]].
    + unfold check_detailed_health, bind, gets, modify, try_finally. simpl.
      pose proof (_request_sent R transport "GET" "/../health/detailed" no_kwargs
                    (set_access_token JNull w)) as Hs.
      destruct (_request R transport "GET" "/../health/detailed" no_kwargs
                  (set_access_token JNull w)) as [r w1].
      exact Hs.
    + unfold build_request. simpl.
      rewrite lookup_insert_ne by discriminate. apply lookup_empty.
Qed.

End Wire.

(** ** Rate-limit state and errors of [_request] *)

Section RequestMore.

Variable R : Runtime.
Variable transport : nat -> Request -> Reply.

(** The world after [_request] is the one the rate-limit update leaves. *)
Lemma _request_world verb path kwargs w response :
  transport (length (sent w)) (build_request R verb path kwargs (client w))
    = Answer response ->
  snd (_request R transport verb path kwargs w)
    = snd (_update_rate_limit R response
             (record_request (build_request R verb path kwargs (client w)) w)).
Proof.
  intros Ht. rewrite (_request_answer _ _ _ _ _ _ _ Ht). unfold bind.
  destruct (_update_rate_limit R response _) as [[[] | e] w1]; [| reflexivity].
  simpl. apply (read_response_still R response w1).
Qed.

(** X3. After any answered request whose rate-limit headers are well
    formed, whether [_request] returns or raises, each field of the
    client's rate-limit state is the value of its header when the
    header is present and its earlier value otherwise. *)
Theorem rate_limit_tracked verb path kwargs w response :
  transport (length (sent w)) (build_request R verb path kwargs (client w))
    = Answer response ->
  rate_limit_headers_ok R response = true ->
  let before := rate_limit (client w) in
  let after := rate_limit (client (snd (_request R transport verb path kwargs w))) in
  limit after
    = match header response "X-RateLimit-Limit" with
      | Some v => py_int R v
      | None => limit before
      end /\
  remaining after
    = match header response "X-RateLimit-Remaining" with
      | Some v => py_int R v
      | None => remaining before
      end /\
  reset after
    = match header response "X-RateLimit-Reset" with
      | Some v => py_int R v
      | None => reset before
      end.
Proof.
  intros Ht Hh. simpl. rewrite (_request_world _ _ _ _ _ Ht).
  unfold rate_limit_headers_ok, int_header_ok in Hh.
  apply andb_prop in Hh as [Hh H3]. apply andb_prop in Hh as [H1 H2].
  unfold _update_rate_limit, bind, int, modify, ret, raise.
  destruct (header response "X-RateLimit-Limit") as [v1 |];
    [destruct (py_int R v1); [| discriminate] |];
  (destruct (header response "X-RateLimit-Remaining") as [v2 |];
    [destruct (py_int R v2); [| discriminate] |]);
  (destruct (header response "X-RateLimit-Reset") as [v3 |];
    [destruct (py_int R v3) as [n3 |];
       [unfold fromtimestamp_ok in H3;
        destruct (fromtimestamp_error R n3); [discriminate H3 |]
       | discriminate] |]);
  simpl; auto.
Qed.

(** X4. A response whose rate-limit headers are not well formed makes
    [_request] raise, whatever the status and the body, the error of
    the first conversion that fails, the headers taken in the order
    limit, remaining, reset: the [ValueError] of [int] with its message
    for a value that is not an integer, and for a reset time that
    [datetime.fromtimestamp] rejects the [ValueError], [OSError] or
    [OverflowError] it raises. *)
Theorem malformed_rate_limit_header verb path kwargs w response :
  transport (length (sent w)) (build_request R verb path kwargs (client w))
    = Answer response ->
  rate_limit_headers_ok R response = false ->
  exists e,
    fst (_request R transport verb path kwargs w) = Raise e /\
    ((exists v,
        header response "X-RateLimit-Limit" = Some v /\
        py_int R v = None /\ e = ValueError (int_error R v)) \/
     (int_header_ok R response "X-RateLimit-Limit" (fun _ => true) = true /\
      exists v,
        header response "X-RateLimit-Remaining" = Some v /\
        py_int R v = None /\ e = ValueError (int_error R v)) \/
     (int_header_ok R response "X-RateLimit-Limit" (fun _ => true) = true /\
      int_header_ok R response "X-RateLimit-Remaining" (fun _ => true) = true /\
      exists v,
        header response "X-RateLimit-Reset" = Some v /\
        ((py_int R v = None /\ e = ValueError (int_error R v)) \/
         (exists n te,
            py_int R v = Some n /\ fromtimestamp_error R n = Some te /\
            e = time_exn te)))).
Proof.
  intros Ht Hh. rewrite (_request_answer _ _ _ _ _ _ _ Ht).
  unfold rate_limit_headers_ok, int_header_ok, fromtimestamp_ok in *.
  unfold _update_rate_limit, bind, int, modify, ret, raise.
  destruct (header response "X-RateLimit-Limit") as [v1 |];
    [destruct (py_int R v1) as [n1 |] eqn:E1 |].
  3: {
    destruct (header response "X-RateLimit-Remaining") as [v2 |];
      [destruct (py_int R v2) as [n2 |] eqn:E2 |].
    3: {
      destruct (header response "X-RateLimit-Reset") as [v3 |];
        [destruct (py_int R v3) as [n3 |] eqn:E3;
           [destruct (fromtimestamp_error R n3) as [te |] eqn:E4 |] |];
      simpl in *; try discriminate Hh;
      eexists; (split; [reflexivity |]); right; right; eauto 12.
    }
    - destruct (header response "X-RateLimit-Reset") as [v3 |];
        [destruct (py_int R v3) as [n3 |] eqn:E3;
           [destruct (fromtimestamp_error R n3) as [te |] eqn:E4 |] |];
      simpl in *; try discriminate Hh;
      eexists; (split; [reflexivity |]); right; right; eauto 12.
    - simpl. eexists. split; [reflexivity |]. right; left. eauto 8.
  }
  - destruct (header response "X-RateLimit-Remaining") as [v2 |];
      [destruct (py_int R v2) as [n2 |] eqn:E2 |].
    3: {
      destruct (header response "X-RateLimit-Reset") as [v3 |];
        [destruct (py_int R v3) as [n3 |] eqn:E3;
           [destruct (fromtimestamp_error R n3) as [te |] eqn:E4 |] |];
      simpl in *; try discriminate Hh;
      eexists; (split; [reflexivity |]); right; right; eauto 12.
    }
    + destruct (header response "X-RateLimit-Reset") as [v3 |];
        [destruct (py_int R v3) as [n3 |] eqn:E3;
           [destruct (fromtimestamp_error R n3) as [te |] eqn:E4 |] |];
      simpl in *; try discriminate Hh;
      eexists; (split; [reflexivity |]); right; right; eauto 12.
    + simpl. eexists. split; [reflexivity |]. right; left. eauto 8.
  - simpl. eexists. split; [reflexivity |]. left. eauto 8.
Qed.

Lemma error_response_raises response w e st :
  fst (error_response R response w) = Raise e ->
  api_status e = Some st ->
  st = status_code response /\
  (st = 429 ->
     error_type_attr e = Ok (JStr "rate-limit-exceeded") /\
     exists n, retry_after_attr e = Ok (JNum n)) /\
  (st <> 429 -> retry_after_attr e = Ok JNull).
Proof.
  unfold error_response, try_except, response_json, bind, lift, ret, raise, int.
  destruct (status_code response =? 429) eqn:E;
    [apply Z.eqb_eq in E | apply Z.eqb_neq in E];
  (destruct (body response) as [[| | | | | fields] |]; simpl);
  try (destruct (header response "Retry-After") as [v |];
       [destruct (py_int R v) |]; simpl);
  intros H Hs; inversion H; subst e; simpl in Hs; inversion Hs; subst st;
  simpl; repeat split; try congruence; eauto.
Qed.

(** An API error raised by [_request] always comes from an answered
    request and carries the status of the response, which lies in
    400..599.  With status 429 it is the rate-limit error: its type tag
    is 'rate-limit-exceeded' whatever the body says, and it has an
    integer retry-after; with any other status its retry-after is
    [None]. *)
Lemma _request_api_error verb path kwargs w e st :
  fst (_request R transport verb path kwargs w) = Raise e ->
  api_status e = Some st ->
  exists response,
    transport (length (sent w)) (build_request R verb path kwargs (client w))
      = Answer response /\
    status_code response = st /\
    400 <= st < 600 /\
    (st = 429 ->
       error_type_attr e = Ok (JStr "rate-limit-exceeded") /\
       exists n, retry_after_attr e = Ok (JNum n)) /\
    (st <> 429 -> retry_after_attr e = Ok JNull).
Proof.
  intros Hr Hs.
  destruct (transport (length (sent w))
              (build_request R verb path kwargs (client w)))
    as [response | what] eqn:Ht.
  - exists response. split; [reflexivity |].
    destruct (ok response) eqn:Hok.
    + rewrite (_request_ok_no_api_error R transport _ _ _ _ _ _ Ht Hok Hr) in Hs.
      discriminate Hs.
    + rewrite (_request_answer _ _ _ _ _ _ _ Ht) in Hr. unfold bind in Hr.
      destruct (_update_rate_limit R response _) as [[[] | e'] w1] eqn:Hu.
      * unfold read_response in Hr. rewrite Hok in Hr.
        destruct (error_response_raises response w1 e st Hr Hs) as (H1 & H2 & H3).
        split; [congruence |]. split; [| split; assumption].
        subst st. unfold ok in Hok.
        apply negb_false_iff, andb_prop in Hok as [Ha Hb].
        apply Z.leb_le in Ha. apply Z.ltb_lt in Hb. lia.
      * simpl in Hr. inversion Hr; subst e'.
        rewrite (_update_rate_limit_plain R response _ e) in Hs
          by (rewrite Hu; reflexivity).
        discriminate Hs.
  - rewrite (_request_broken _ _ _ _ _ _ _ Ht) in Hr.
    inversion Hr; subst e. discriminate Hs.
Qed.

(** X5. An API error raised by [_request] always comes from an answered
    request and carries the status of the response, which lies in
    400..599.  With status 429 it is the rate-limit error: its type tag
    is 'rate-limit-exceeded' whatever the body says, and it has an
    integer retry-after; with any other status its retry-after is
    [None]. *)
Theorem api_errors_carry_status verb path kwargs w e st :
  fst (_request R transport verb path kwargs w) = Raise e ->
  api_status e = Some st ->
  exists response,
    transport (length (sent w)) (build_request R verb path kwargs (client w))
      = Answer response /\
    status_code response = st /\
    400 <= st < 600 /\
    (st = 429 ->
       error_type_attr e = Ok (JStr "rate-limit-exceeded") /\
       exists n, retry_after_attr e = Ok (JNum n)) /\
    (st <> 429 -> retry_after_attr e = Ok JNull).
Proof. apply _request_api_error. Qed.

End RequestMore.

Lemma rate_limit_tracked_witness :
  remaining (rate_limit (client (snd (_request example_runtime low_headroom
                                        "GET" "/data/p1" no_kwargs
                                        example_world))))
    = Some 5.
Proof.
  pose proof (rate_limit_tracked example_runtime low_headroom "GET" "/data/p1"
                no_kwargs example_world
                (response_of 200 [("X-RateLimit-Remaining", "5")]
                   (payload (JNum 1) "e1"))
                eq_refl eq_refl) as (_ & H & _).
  exact H.
Defined.

Lemma malformed_rate_limit_header_witness :
  exists e,
    fst (_request example_runtime (always (reset_at "253402300800"))
           "GET" "/data/p1" no_kwargs example_world) = Raise e /\
    ((exists v,
        header (reset_at "253402300800") "X-RateLimit-Limit" = Some v /\
        py_int example_runtime v = None /\
        e = ValueError (int_error example_runtime v)) \/
     (int_header_ok example_runtime (reset_at "253402300800")
        "X-RateLimit-Limit" (fun _ => true) = true /\
      exists v,
        header (reset_at "253402300800") "X-RateLimit-Remaining" = Some v /\
        py_int example_runtime v = None /\
        e = ValueError (int_error example_runtime v)) \/
     (int_header_ok example_runtime (reset_at "253402300800")
        "X-RateLimit-Limit" (fun _ => true) = true /\
      int_header_ok example_runtime (reset_at "253402300800")
        "X-RateLimit-Remaining" (fun _ => true) = true /\
      exists v,
        header (reset_at "253402300800") "X-RateLimit-Reset" = Some v /\
        ((py_int example_runtime v = None /\
          e = ValueError (int_error example_runtime v)) \/
         (exists n te,
            py_int example_runtime v = Some n /\
            fromtimestamp_error example_runtime n = Some te /\
            e = time_exn te)))).
Proof.
  exact (malformed_rate_limit_header example_runtime
           (always (reset_at "253402300800"))
           "GET" "/data/p1" no_kwargs example_world
           (reset_at "253402300800") eq_refl eq_refl).
Defined.

(** The errors of that conversion, under the runtime of the examples:
    a header that is not a number, and reset times past the year 9999,
    past the years of C and past its times. *)
Example malformed_rate_limit_header_scenario :
  map (fun response =>
         fst (_request example_runtime (always response)
                "GET" "/data/p1" no_kwargs example_world))
      [response_of 200 [("X-RateLimit-Limit", "many")] None;
       reset_at "253402300800";
       reset_at "100000000000000000";
       reset_at "100000000000000000000"]
  = [Raise (ValueError "invalid literal for int() with base 10: 'many'");
     Raise (ValueError "year 10000 is out of range");
     Raise (OSError "[Errno 75] Value too large for defined data type");
     Raise (OverflowError "timestamp out of range for platform time_t")].
Proof. vm_compute. reflexivity. Qed.

Lemma api_errors_carry_status_witness :
  exists response,
    always (limited "30") (length (sent example_world))
      (build_request example_runtime "GET" "/data/x" no_kwargs
         (client example_world)) = Answer response /\
    status_code response = 429 /\
    400 <= 429 < 600 /\
    (429 = 429 ->
       error_type_attr (RateLimitError (JStr "slow down") 30)
         = Ok (JStr "rate-limit-exceeded") /\
       exists n, retry_after_attr (RateLimitError (JStr "slow down") 30)
                 = Ok (JNum n)) /\
    (429 <> 429 ->
       retry_after_attr (RateLimitError (JStr "slow down") 30) = Ok JNull).
Proof.
  apply (api_errors_carry_status example_runtime (always (limited "30"))
           "GET" "/data/x" no_kwargs example_world
           (RateLimitError (JStr "slow down") 30) 429).
  - vm_compute. reflexivity.
  - reflexivity.
Defined.

(** ** Tokens and conditional fetches *)

Section ClientMore.

Variable R : Runtime.
Variable transport : nat -> Request -> Reply.



Lemma getitem_plain v k e : getitem v k = Raise e -> api_status e = None.
Proof.
  unfold getitem. destruct v; try (intros H; inversion H; reflexivity).
  destruct (assoc k fields); intros H; inversion H; reflexivity.
Qed.

Lemma refresh_without_token w :
  truthy (refresh_token (client w)) = false ->
  refresh_access_token R transport w
    = (Raise (ValueError "Refresh token is required"), w).
Proof.
  intros H. unfold refresh_access_token, bind, gets. rewrite H. reflexivity.
Qed.

(** X6. Without a refresh token ([None] or the empty string),
    [refresh_access_token] raises [ValueError] and does nothing else: no
    request is sent and the client is unchanged. *)
Theorem refresh_requires_token w :
  truthy (refresh_token (client w)) = false ->
  refresh_access_token R transport w
    = (Raise (ValueError "Refresh token is required"), w) /\
  sent (snd (refresh_access_token R transport w)) = sent w /\
  client (snd (refresh_access_token R transport w)) = client w.
Proof.
  intros H. rewrite (refresh_without_token w H). repeat split.
Qed.




(** [get_data] sends one GET request for [data/<path>]; it carries
    the validation token as If-None-Match when the token is truthy, and
    no such header when the token is [None] or empty. *)
Lemma get_data_conditional_header_aux path etag w :
  exists req,
    sent (snd (get_data R transport path etag w)) = (sent w ++ [req])%list /\
    method req = "GET" /\
    url req = urljoin R (base_url (client w)) ("data/" +:+ path) /\
    (truthy etag = true -> req_headers req !! "If-None-Match" = Some etag) /\
    (truthy etag = false -> req_headers req !! "If-None-Match" = None).
Proof.
  eexists. split; [apply get_data_sent |].
  unfold build_request. simpl. repeat split.
  - intros ->. destruct (truthy (access_token (client w)));
      rewrite ?lookup_insert_ne by discriminate; apply lookup_insert_eq.
  - intros ->. destruct (truthy (access_token (client w)));
      rewrite ?lookup_insert_ne by discriminate; apply lookup_empty.
Qed.

(** X10. [get_data] sends one GET request for [data/<path>]; it carries
    the validation token as If-None-Match when the token is truthy, and
    no such header when the token is [None] or empty. *)
Theorem get_data_conditional_header path etag w :
  exists req,
    sent (snd (get_data R transport path etag w)) = (sent w ++ [req])%list /\
    method req = "GET" /\
    url req = urljoin R (base_url (client w)) ("data/" +:+ path) /\
    (truthy etag = true -> req_headers req !! "If-None-Match" = Some etag) /\
    (truthy etag = false -> req_headers req !! "If-None-Match" = None).
Proof. apply get_data_conditional_header_aux. Qed.


(** X12. Whatever [_request] raises, [get_data] raises unchanged: its
    clause for status 304 is never entered, since no error of
    [_request] carries that status. *)
Theorem get_data_propagates path etag w e w1 :
  _request R transport "GET" ("/data/" +:+ path)
    {| kw_headers := Some (if truthy etag
                           then <["If-None-Match" := etag]> ∅ else ∅);
       kw_json := None |} w
    = (Raise e, w1) ->
  get_data R transport path etag w = (Raise e, w1).
Proof.
  intros Hr. unfold get_data, try_except, bind. rewrite Hr.
  destruct (api_status e) as [st |] eqn:Hs; [| reflexivity].
  assert (Hf : fst (_request R transport "GET" ("/data/" +:+ path)
                      {| kw_headers := Some (if truthy etag
                                             then <["If-None-Match" := etag]> ∅
                                             else ∅);
                         kw_json := None |} w) = Raise e)
    by (rewrite Hr; reflexivity).
  destruct (_request_api_error R transport _ _ _ _ _ _ Hf Hs)
    as (_ & _ & _ & Hb & _).
  replace (st =? 304) with false by (symmetry; apply Z.eqb_neq; lia).
  reflexivity.
Qed.

(** X13. After a [logout] that returns, the client holds no token:
    [refresh_access_token] raises [ValueError] without sending
    anything, and a request made with no headers of the caller's goes
    out without an Authorization header. *)
Theorem logout_then_unauthenticated w :
  fst (logout R transport w) = Ok tt ->
  let w1 := snd (logout R transport w) in
  refresh_access_token R transport w1
    = (Raise (ValueError "Refresh token is required"), w1) /\
  forall verb path,
    exists req,
      sent (snd (_request R transport verb path no_kwargs w1))
        = (sent w1 ++ [req])%list /\
      req_headers req !! "Authorization" = None.
Proof.
  intros Hl. simpl.
  assert (Ha : access_token (client (snd (logout R transport w))) = JNull /\
               refresh_token (client (snd (logout R transport w))) = JNull).
  { revert Hl. unfold logout, bind, modify.
    destruct (_request R transport "POST" "/auth/logout" no_kwargs w)
      as [[v | e] w1]; simpl; [auto | discriminate]. }
  destruct Ha as [Ha Hr]. split.
  - apply refresh_without_token. rewrite Hr. reflexivity.
  - intros verb path. eexists. split; [apply _request_sent |].
    unfold build_request. rewrite Ha. simpl.
    rewrite lookup_insert_ne by discriminate. apply lookup_empty.
Qed.

End ClientMore.

(** ** More on the retry wrapper *)

Section RetryMore.

Variable R : Runtime.
Variable transport : nat -> Request -> Reply.

Lemma range_first n : 1 <= n -> exists rest, range n = 0 :: rest.
Proof.
  intros H. unfold range. destruct (Z.to_nat n) as [| k] eqn:E; [lia |].
  eexists. reflexivity.
Qed.

(** X14. With [max_retries] zero or negative, [fetch_with_retry] raises
    the "Failed after" exception at once: no fetch is attempted. *)
Theorem fetch_with_retry_no_attempts path max_retries w :
  max_retries <= 0 ->
  fetch_with_retry R transport path max_retries w
    = (Raise (Exception (failed_after max_retries)), w).
Proof.
  intros H. unfold fetch_with_retry, range.
  replace (Z.to_nat max_retries) with 0%nat by lia. reflexivity.
Qed.

(** X15. An API error of the first fetch that is neither a rate-limit
    error nor a 401 is raised at once, and so is a 401 when
    [max_retries] is 1: nothing is refreshed and nothing is retried. *)
Theorem fetch_with_retry_gives_up path max_retries w message status
    error_type w1 :
  get_data R transport path JNull w
    = (Raise (OpenDataAPIError message status error_type), w1) ->
  1 <= max_retries ->
  status <> 401 \/ max_retries = 1 ->
  fetch_with_retry R transport path max_retries w
    = (Raise (OpenDataAPIError message status error_type), w1).
Proof.
  intros Hg Hm Hs. unfold fetch_with_retry.
  destruct (range_first max_retries Hm) as [rest ->]. simpl. rewrite Hg.
  replace ((status =? 401) && (0 <? max_retries - 1)) with false; [reflexivity |].
  symmetry. apply andb_false_iff. destruct Hs as [Hs | Hs].
  - left. apply Z.eqb_neq. exact Hs.
  - right. apply Z.ltb_ge. lia.
Qed.

(** X16. An exception of the first fetch that is not an API error (a
    failed connection, a body of the wrong shape) leaves
    [fetch_with_retry] at once. *)
Theorem fetch_with_retry_other_errors path max_retries w e w1 :
  get_data R transport path JNull w = (Raise e, w1) ->
  api_status e = None ->
  1 <= max_retries ->
  fetch_with_retry R transport path max_retries w = (Raise e, w1).
Proof.
  intros Hg He Hm. unfold fetch_with_retry.
  destruct (range_first max_retries Hm) as [rest ->]. simpl. rewrite Hg.
  destruct e; try reflexivity; discriminate He.
Qed.

Lemma get_data_one_request path etag w :
  exists req,
    sent (snd (get_data R transport path etag w)) = (sent w ++ [req])%list.
Proof. eexists. apply get_data_sent. Qed.

(** A refresh sends at most one request and takes no pause. *)
Lemma refresh_effects w :
  sleeps (snd (refresh_access_token R transport w)) = sleeps w /\
  exists reqs,
    sent (snd (refresh_access_token R transport w)) = (sent w ++ reqs)%list /\
    (length reqs <= 1)%nat.
Proof.
  unfold refresh_access_token, bind, gets, lift, modify.
  destruct (negb (truthy (refresh_token (client w)))).
  - simpl. split; [reflexivity |]. exists []. rewrite app_nil_r. auto.
  - simpl.
    pose proof (_request_quiet R transport "POST" "/auth/refresh"
                  {| kw_headers := None;
                     kw_json := Some (JObj [("refresh_token",
                                             refresh_token (client w))]) |} w)
      as (_ & _ & _ & Hsl).
    pose proof (_request_sent R transport "POST" "/auth/refresh"
                  {| kw_headers := None;
                     kw_json := Some (JObj [("refresh_token",
                                             refresh_token (client w))]) |} w)
      as Hs.
    destruct (_request R transport "POST" "/auth/refresh" _ w)
      as [[response | e] w1]; simpl in *.
    + assert (Hgoal : forall w2 : World,
                sleeps w2 = sleeps w1 -> sent w2 = sent w1 ->
                sleeps w2 = sleeps w /\
                exists reqs, sent w2 = (sent w ++ reqs)%list /\
                             (length reqs <= 1)%nat).
      { intros w2 H1 H2. rewrite H1, H2, Hs. split; [exact Hsl |].
        eexists. split; [reflexivity | simpl; lia]. }
      destruct (getitem response "access_token") as [a | e]; simpl;
        [| apply Hgoal; reflexivity].
      destruct (getitem response "refresh_token") as [r | e]; simpl;
        apply Hgoal; reflexivity.
    + split; [exact Hsl |]. eexists. split; [exact Hs | simpl; lia].
Qed.

Lemma filter_length_lt {A} (f : A -> bool) (l : list A) (x : A) :
  In x l -> f x = false -> (length (List.filter f l) < length l)%nat.
Proof.
  induction l as [| y l IH]; intros Hin Hf; [destruct Hin |].
  simpl. destruct Hin as [E | Hin].
  - subst y. rewrite Hf. pose proof (List.filter_length_le f l). lia.
  - specialize (IH Hin Hf). destruct (f y); simpl; lia.
Qed.

(** The attempts of [range(max_retries)] that may refresh are all but
    the last. *)
Lemma refreshing_attempts max_retries :
  (length (List.filter (fun a => (a <? max_retries - 1)%Z) (range max_retries))
   <= Z.to_nat max_retries - 1)%nat.
Proof.
  destruct (Z_le_gt_dec max_retries 0) as [H | H].
  - unfold range. replace (Z.to_nat max_retries) with 0%nat by lia.
    simpl. lia.
  - assert (Hl : length (range max_retries) = Z.to_nat max_retries).
    { unfold range. rewrite length_map, length_seq. reflexivity. }
    assert (Hin : In (max_retries - 1) (range max_retries)).
    { unfold range. apply in_map_iff. exists (Z.to_nat (max_retries - 1)).
      split; [lia |]. apply in_seq. lia. }
    pose proof (filter_length_lt (fun a => (a <? max_retries - 1)%Z) _ _ Hin
                  (Z.ltb_irrefl _)).
    lia.
Qed.

Lemma retry_loop_bounds path max_retries attempts : forall w,
  let w' := snd (retry_loop R transport path max_retries attempts w) in
  (exists reqs,
     sent w' = (sent w ++ reqs)%list /\
     (length reqs
      <= length attempts
         + length (List.filter (fun a => (a <? max_retries - 1)%Z) attempts))%nat) /\
  (exists pauses,
     sleeps w' = (sleeps w ++ pauses)%list /\
     (length pauses <= length attempts)%nat).
Proof.
  induction attempts as [| attempt rest IH]; intros w.
  - simpl. split; exists []; rewrite app_nil_r; auto.
  - simpl retry_loop.
    destruct (get_data_one_request path JNull w) as [req Hreq].
    pose proof (get_data_quiet R transport path JNull w) as (_ & _ & _ & Hsl).
    destruct (get_data R transport path JNull w) as [[[data etag] | e] w1];
      simpl in Hreq, Hsl.
    + simpl. split.
      * exists [req]. split; [exact Hreq | simpl; lia].
      * exists []. rewrite app_nil_r. split; [exact Hsl | simpl; lia].
    + assert (Hstop : (exists reqs,
                         sent w1 = (sent w ++ reqs)%list /\
                         (length reqs
                          <= length (attempt :: rest)
                             + length (List.filter (fun a => (a <? max_retries - 1)%Z)
                                         (attempt :: rest)))%nat) /\
                      (exists pauses,
                         sleeps w1 = (sleeps w ++ pauses)%list /\
                         (length pauses <= length (attempt :: rest))%nat)).
      { split.
        - exists [req]. split; [exact Hreq | simpl; lia].
        - exists []. rewrite app_nil_r. split; [exact Hsl | simpl; lia]. }
      destruct e as [message st error_type | message retry_after
                     | msg | type_name attribute | key | type_name | msg
                     | msg | msg | what | msg]; try exact Hstop.
      * (* an API error: a refresh when the test holds *)
        simpl List.filter.
        destruct ((st =? 401) && (attempt <? max_retries - 1)) eqn:E;
          [| exact Hstop].
        apply andb_prop in E as [_ E]. rewrite E.
        unfold bind.
        destruct (refresh_effects w1) as (Hrs & rq & Hrq & Hlen).
        destruct (refresh_access_token R transport w1) as [[tokens | e] w2];
          simpl in Hrs, Hrq.
        -- destruct (IH w2) as ((reqs & Hr & Hrl) & (pauses & Hp & Hpl)).
           simpl. split.
           ++ exists (req :: rq ++ reqs)%list. split.
              ** rewrite Hr, Hrq, Hreq, <- !app_assoc. reflexivity.
              ** simpl. rewrite length_app. lia.
           ++ exists pauses. split; [rewrite Hp, Hrs, Hsl; reflexivity | simpl; lia].
        -- simpl. split.
           ++ exists (req :: rq)%list. split.
              ** rewrite Hrq, Hreq, <- app_assoc. reflexivity.
              ** simpl. lia.
           ++ exists []. rewrite app_nil_r.
              split; [rewrite Hrs, Hsl; reflexivity | simpl; lia].
      * (* a rate-limit error: a pause, when the duration is accepted *)
        unfold bind, sleep.
        destruct ((retry_after <? - sleep_max) || (sleep_max <? retry_after));
          [exact Hstop |].
        destruct (retry_after <? 0); [exact Hstop |].
        destruct (sleep_limit R <? retry_after); simpl.
        -- exact Hstop.
        -- destruct (IH (record_sleep retry_after w1))
             as ((reqs & Hr & Hrl) & (pauses & Hp & Hpl)).
           simpl in Hr, Hp. split.
           ++ exists (req :: reqs). split.
              ** rewrite Hr, Hreq, <- app_assoc. reflexivity.
              ** simpl. destruct (attempt <? max_retries - 1); simpl; lia.
           ++ exists (retry_after :: pauses). split.
              ** rewrite Hp, Hsl, <- app_assoc. reflexivity.
              ** simpl. lia.
Qed.

(** X17. [fetch_with_retry] sends at most [2 * max_retries - 1]
    requests (a fetch per attempt and a refresh after each attempt but
    the last) and takes at most [max_retries] pauses; it only adds to
    the requests sent and the pauses taken. *)
Theorem fetch_with_retry_bounds path max_retries w :
  let w' := snd (fetch_with_retry R transport path max_retries w) in
  (exists reqs,
     sent w' = (sent w ++ reqs)%list /\
     (length reqs <= 2 * Z.to_nat max_retries - 1)%nat) /\
  (exists pauses,
     sleeps w' = (sleeps w ++ pauses)%list /\
     (length pauses <= Z.to_nat max_retries)%nat).
Proof.
  unfold fetch_with_retry.
  destruct (retry_loop_bounds path max_retries (range max_retries) w)
    as ((reqs & Hr & Hrl) & (pauses & Hp & Hpl)).
  assert (Hl : length (range max_retries) = Z.to_nat max_retries).
  { unfold range. rewrite length_map, length_seq. reflexivity. }
  pose proof (refreshing_attempts max_retries) as Hf.
  simpl. split.
  - exists reqs. split; [exact Hr |].
    destruct (Z.to_nat max_retries) eqn:E; lia.
  - exists pauses. split; [exact Hp | lia].
Qed.

End RetryMore.

(** ** More on the batch fetcher *)

Section BatchMore.

Variable R : Runtime.
Variable transport : nat -> Request -> Reply.

(** X18. A batch size of zero makes [fetch_multiple_data] raise the
    [ValueError] of [range], and a negative one makes it return the
    empty list; in both cases no path is fetched, whatever the paths. *)
Theorem fetch_multiple_data_bad_batch_size paths batch_size w :
  (batch_size = 0 ->
     fetch_multiple_data R transport paths batch_size w
       = (Raise (ValueError "range() arg 3 must not be zero"), w)) /\
  (batch_size < 0 ->
     fetch_multiple_data R transport paths batch_size w = (Ok [], w)).
Proof.
  split; intros H; unfold fetch_multiple_data, bind, lift, range3.
  - subst batch_size. reflexivity.
  - replace (batch_size =? 0) with false by (symmetry; apply Z.eqb_neq; lia).
    replace (0 <? batch_size) with false by (symmetry; apply Z.ltb_ge; lia).
    assert (Hq : (0 - Z.of_nat (length paths) - batch_size - 1) / - batch_size < 1)
      by (apply Z.div_lt_upper_bound; lia).
    replace (Z.to_nat ((0 - Z.of_nat (length paths) - batch_size - 1)
                       / - batch_size)) with 0%nat by lia.
    reflexivity.
Qed.

Lemma credentials_kept_refl w : credentials_kept w w.
Proof. repeat split. Qed.

Lemma credentials_kept_trans a b c :
  credentials_kept a b -> credentials_kept b c -> credentials_kept a c.
Proof. unfold credentials_kept. intuition congruence. Qed.

Lemma quiet_credentials w w' : quiet w w' -> credentials_kept w w'.
Proof. intros (H1 & H2 & H3 & _). repeat split; assumption. Qed.

(** A batch sends one request per path and keeps the credentials. *)
Lemma fetch_batch_requests batch : forall results w,
  length (sent (snd (fetch_batch R transport batch results w)))
    = (length (sent w) + length batch)%nat.
Proof.
  induction batch as [| path rest IH]; intros results w.
  - simpl. lia.
  - simpl fetch_batch. unfold bind at 1. rewrite fetch_one.
    rewrite IH, get_data_sent, length_app. simpl. lia.
Qed.

Lemma fetch_group_effects paths batch_size i results w :
  let w' := snd (fetch_group R transport paths batch_size i results w) in
  length (sent w')
    = (length (sent w) + length (slice paths i (i + batch_size)))%nat /\
  credentials_kept w w' /\
  exists k,
    sleeps w' = (sleeps w ++ repeat 5 k)%list /\
    (k <= 1)%nat /\
    (Z.of_nat (length paths) <= i + batch_size -> k = 0%nat).
Proof.
  simpl. rewrite fetch_group_steps.
  pose proof (fetch_batch_requests (slice paths i (i + batch_size)) results w) as Hn.
  pose proof (fetch_batch_quiet R transport (slice paths i (i + batch_size))
                results w) as Hq.
  destruct (fetch_batch R transport (slice paths i (i + batch_size)) results w)
    as [[results' | e] w1]; simpl in *.
  - destruct Hq as (Hq1 & Hq2 & Hq3 & Hq4).
    destruct (rate_limit_low paths batch_size i w1) eqn:Hlow; simpl.
    + split; [exact Hn |]. split; [repeat split; assumption |].
      exists 1%nat. rewrite Hq4.
      split; [reflexivity |]. split; [lia |].
      intros Hlast. exfalso. unfold rate_limit_low in Hlow.
      destruct (remaining (rate_limit (client w1))); [| discriminate].
      apply andb_prop in Hlow as [_ Hlow]. apply Z.ltb_lt in Hlow. lia.
    + split; [exact Hn |]. split; [repeat split; assumption |].
      exists 0%nat. rewrite Hq4. simpl. rewrite app_nil_r. auto.
  - destruct Hq as (Hq1 & Hq2 & Hq3 & Hq4).
    split; [exact Hn |]. split; [repeat split; assumption |].
    exists 0%nat. rewrite Hq4. simpl. rewrite app_nil_r. auto.
Qed.

Lemma fetch_groups_effects paths batch_size starts : forall results w,
  (starts <> [] -> Z.of_nat (length paths) <= List.last starts 0 + batch_size) ->
  let w' := snd (fetch_groups R transport paths batch_size starts results w) in
  length (sent w')
    = (length (sent w)
       + length (concat (map (fun i => slice paths i (i + batch_size)) starts)))%nat /\
  credentials_kept w w' /\
  exists k,
    sleeps w' = (sleeps w ++ repeat 5 k)%list /\
    (k <= pred (length starts))%nat.
Proof.
  induction starts as [| i more IH]; intros results w Hlast.
  - simpl. split; [lia |]. split; [apply credentials_kept_refl |].
    exists 0%nat. simpl. rewrite app_nil_r. auto.
  - simpl fetch_groups. unfold bind.
    destruct (fetch_group_effects paths batch_size i results w)
      as (Hn & Hc & k1 & Hs & Hk1 & Hzero).
    destruct (fetch_group_records R transport paths batch_size i results w)
      as (rs & Hrs & _).
    destruct (fetch_group R transport paths batch_size i results w)
      as [[results' | e] w1]; simpl in Hn, Hc, Hs, Hrs; [| discriminate Hrs].
    assert (Hmore : more <> [] ->
                    Z.of_nat (length paths) <= List.last more 0 + batch_size).
    { intros Hne. destruct more as [| j more']; [congruence |].
      apply Hlast. discriminate. }
    destruct (IH results' w1 Hmore) as (Hn2 & Hc2 & k2 & Hs2 & Hk2).
    simpl. split; [| split].
    + rewrite Hn2, Hn, length_app. lia.
    + eapply credentials_kept_trans; eassumption.
    + exists (k1 + k2)%nat. split.
      * rewrite Hs2, Hs, <- app_assoc, repeat_app. reflexivity.
      * destruct more as [| j more'].
        -- simpl in *. rewrite Hzero by (apply Hlast; discriminate). lia.
        -- simpl in *. lia.
Qed.

(** The last start of the loop is within one batch of the end. *)
Lemma last_start (paths : list string) batch_size starts :
  0 < batch_size ->
  range3 0 (Z.of_nat (length paths)) batch_size = Ok starts ->
  starts <> [] ->
  Z.of_nat (length paths) <= List.last starts 0 + batch_size.
Proof.
  intros Hb Hr Hne. rewrite range3_forward in Hr by exact Hb.
  inversion Hr; subst starts; clear Hr.
  set (n := Z.of_nat (length paths)) in *.
  assert (Hq : n <= (n - 0 + batch_size - 1) / batch_size * batch_size).
  { pose proof (Z.div_mod (n - 0 + batch_size - 1) batch_size ltac:(lia)) as Hd.
    pose proof (Z.mod_pos_bound (n - 0 + batch_size - 1) batch_size Hb) as Hm.
    lia. }
  destruct (Z.to_nat ((n - 0 + batch_size - 1) / batch_size)) as [| c] eqn:Ec;
    [contradiction Hne; reflexivity |].
  rewrite seq_S, map_app. simpl map. rewrite List.last_last.
  assert (Z.of_nat (S c) = (n - 0 + batch_size - 1) / batch_size) by lia.
  nia.
Qed.

(** X19. For a positive batch size [fetch_multiple_data] sends exactly
    one request per path, and leaves the client's address and tokens as
    they were. *)
Theorem fetch_multiple_data_requests paths batch_size w :
  0 < batch_size ->
  let w' := snd (fetch_multiple_data R transport paths batch_size w) in
  length (sent w') = (length (sent w) + length paths)%nat /\
  credentials_kept w w'.
Proof.
  intros Hb. destruct (slices_cover paths batch_size Hb) as (starts & Hr & Hc).
  unfold fetch_multiple_data, bind, lift. rewrite Hr.
  destruct (fetch_groups_effects paths batch_size starts [] w
              (last_start paths batch_size starts Hb Hr))
    as (Hn & Hk & _).
  rewrite Hc in Hn. split; assumption.
Qed.

(** X20. For a positive batch size the pauses [fetch_multiple_data] takes
    are all of 5 seconds and fewer than the groups: there are [k] of
    them with [k = 0] or [k * batch_size < len(paths)].  So when all
    paths fit in one batch, no pause is taken. *)
Theorem fetch_multiple_data_pauses paths batch_size w :
  0 < batch_size ->
  let w' := snd (fetch_multiple_data R transport paths batch_size w) in
  (exists k,
     sleeps w' = (sleeps w ++ repeat 5 k)%list /\
     (k = 0%nat \/ Z.of_nat k * batch_size < Z.of_nat (length paths))) /\
  (Z.of_nat (length paths) <= batch_size -> sleeps w' = sleeps w).
Proof.
  intros Hb. simpl.
  assert (Hk : exists k,
             sleeps (snd (fetch_multiple_data R transport paths batch_size w))
               = (sleeps w ++ repeat 5 k)%list /\
             (k = 0%nat \/ Z.of_nat k * batch_size < Z.of_nat (length paths))).
  { destruct (slices_cover paths batch_size Hb) as (starts & Hr & Hc).
    unfold fetch_multiple_data, bind, lift. rewrite Hr.
    destruct (fetch_groups_effects paths batch_size starts [] w
                (last_start paths batch_size starts Hb Hr))
      as (_ & _ & k & Hs & Hle).
    exists k. split; [exact Hs |].
    destruct k as [| k']; [left; reflexivity | right].
    rewrite range3_forward in Hr by exact Hb.
    inversion Hr; subst starts; clear Hr.
    rewrite length_map, length_seq in Hle.
    apply group_count; lia. }
  split; [exact Hk |].
  intros Hfit. destruct Hk as (k & Hs & [-> | Hlt]).
  - rewrite Hs. simpl. apply app_nil_r.
  - destruct k as [| k'].
    + rewrite Hs. simpl. apply app_nil_r.
    + exfalso. nia.
Qed.

End BatchMore.

(** ** More on the cache wrapper *)

Section CacheMore.

Variable R : Runtime.
Variable transport : nat -> Request -> Reply.

(** The world [get] leaves is the one its fetch leaves. *)
Lemma get_world path (cache : gmap string (json * json)) w :
  snd (CachedDataFetcher.get R transport path cache w)
    = snd (get_data R transport path
             (snd (default (JNull, JNull) (cache !! path))) w).
Proof.
  unfold CachedDataFetcher.get.
  destruct (get_data R transport path _ w) as [[[data etag] | e] w1]; simpl.
  - destruct data; reflexivity.
  - destruct (api_status e) as [st |]; [| reflexivity].
    destruct ((st =? 404) && truthy (fst (default (JNull, JNull) (cache !! path))));
      [| reflexivity].
    destruct (cache !! path); reflexivity.
Qed.

(** X21. [get] sends one GET request.  When the cache holds an entry for
    the path with a truthy validation token, the request carries that
    token as If-None-Match; when it holds no entry, the request carries
    no such header. *)
Theorem get_sends_cached_etag path (cache : gmap string (json * json)) w :
  exists req,
    sent (snd (CachedDataFetcher.get R transport path cache w))
      = (sent w ++ [req])%list /\
    method req = "GET" /\
    (forall data etag, cache !! path = Some (data, etag) ->
       truthy etag = true -> req_headers req !! "If-None-Match" = Some etag) /\
    (cache !! path = None -> req_headers req !! "If-None-Match" = None).
Proof.
  rewrite get_world.
  destruct (get_data_conditional_header_aux R transport path
              (snd (default (JNull, JNull) (cache !! path))) w)
    as (req & Hs & Hm & _ & Ht & Hf).
  exists req. split; [exact Hs |]. split; [exact Hm |]. split.
  - intros data etag Hc Hy. rewrite Hc in Ht. apply Ht. exact Hy.
  - intros Hc. rewrite Hc in Hf. apply Hf. reflexivity.
Qed.

(** X22. Round trip through the cache: a [get] whose fetch returns data
    stores the data with its token and returns it; a second [get] of
    the same path whose fetch returns no data returns the stored data
    and leaves the entry in place. *)
Theorem get_round_trip path (cache : gmap string (json * json)) w data etag w1
    etag2 w2 :
  get_data R transport path (snd (default (JNull, JNull) (cache !! path))) w
    = (Ok (data, etag), w1) ->
  data <> JNull ->
  get_data R transport path etag w1 = (Ok (JNull, etag2), w2) ->
  CachedDataFetcher.get R transport path cache w
    = (Ok data, <[path := (data, etag)]> cache, w1) /\
  CachedDataFetcher.get R transport path (<[path := (data, etag)]> cache) w1
    = (Ok data, <[path := (data, etag)]> cache, w2).
Proof.
  intros Hg Hd Hg2. split.
  - unfold CachedDataFetcher.get. rewrite Hg.
    destruct data; try reflexivity. contradiction Hd. reflexivity.
  - unfold CachedDataFetcher.get. rewrite lookup_insert_eq. simpl.
    rewrite Hg2. reflexivity.
Qed.

(** X23. [get] raises exactly what its fetch raises (the [del] of the
    404 branch never fails), and whatever happens it leaves the entries
    of all other paths alone. *)
Theorem get_frame path (cache : gmap string (json * json)) w :
  (forall e,
     fst (fst (CachedDataFetcher.get R transport path cache w)) = Raise e <->
     fst (get_data R transport path
            (snd (default (JNull, JNull) (cache !! path))) w) = Raise e) /\
  (forall other, other <> path ->
     snd (fst (CachedDataFetcher.get R transport path cache w)) !! other
       = cache !! other).
Proof.
  unfold CachedDataFetcher.get.
  destruct (get_data R transport path _ w) as [[[data etag] | e] w1]; simpl.
  - split.
    + intros e. destruct data; simpl; split; intros H; discriminate H.
    + intros other Hne.
      destruct data; simpl; rewrite ?lookup_insert_ne by congruence;
        reflexivity.
  - assert (Hsame : (forall e0, @Raise json e = Raise e0 <-> @Raise (json * json) e = Raise e0)).
    { intros e0. split; intros H; inversion H; reflexivity. }
    destruct (api_status e) as [st |]; [| split; [exact Hsame | reflexivity]].
    destruct (cache !! path) as [[cached_data cached_etag] |] eqn:Hc; simpl.
    + destruct ((st =? 404) && truthy cached_data); simpl.
      * split; [exact Hsame |]. intros other Hne.
        apply lookup_delete_ne. congruence.
      * split; [exact Hsame | reflexivity].
    + rewrite andb_false_r. simpl. split; [exact Hsame | reflexivity].
Qed.

(** X24. [get] never stores [None] as data: when every entry of the
    cache holds data, every entry still does after [get]. *)
Theorem get_keeps_cache_filled path (cache : gmap string (json * json)) w :
  cache_filled cache ->
  cache_filled (snd (fst (CachedDataFetcher.get R transport path cache w))).
Proof.
  intros Hc. unfold CachedDataFetcher.get.
  assert (Hins : forall data etag, data <> JNull ->
                 cache_filled (<[path := (data, etag)]> cache)).
  { intros data etag Hd k d e Hk.
    destruct (decide (path = k)) as [-> | Hne].
    - rewrite lookup_insert_eq in Hk. inversion Hk; subst. exact Hd.
    - rewrite lookup_insert_ne in Hk by exact Hne. eapply Hc. exact Hk. }
  assert (Hdel : cache_filled (delete path cache)).
  { intros k d e Hk.
    destruct (decide (path = k)) as [-> | Hne].
    - rewrite lookup_delete_eq in Hk. discriminate Hk.
    - rewrite lookup_delete_ne in Hk by exact Hne. eapply Hc. exact Hk. }
  destruct (get_data R transport path _ w) as [[[data etag] | e] w1]; simpl.
  - destruct data; simpl; try exact Hc; apply Hins; discriminate.
  - destruct (api_status e) as [st |]; [| exact Hc].
    destruct ((st =? 404) && truthy (fst (default (JNull, JNull) (cache !! path))));
      [| exact Hc].
    destruct (cache !! path); simpl; [exact Hdel | exact Hc].
Qed.

End CacheMore.

(** ** The constructor *)

Lemma rstrip_slash_suffix s : exists n, s = rstrip_slash s +:+ slashes n.
Proof.
  induction s as [| c rest [n IH]]; [exists 0%nat; reflexivity |].
  simpl. destruct (rstrip_slash rest) as [| c' rest'] eqn:E.
  - destruct (Ascii.eqb c "/") eqn:Ec.
    + apply Ascii.eqb_eq in Ec. subst c. exists (S n). simpl.
      rewrite IH at 1. reflexivity.
    + exists n. simpl. rewrite IH at 1. reflexivity.
  - exists n. simpl. rewrite IH at 1. reflexivity.
Qed.

Lemma rstrip_slash_end s : forall t, rstrip_slash s <> t +:+ "/".
Proof.
  induction s as [| c rest IH]; intros t.
  - destruct t; discriminate.
  - simpl. destruct (rstrip_slash rest) as [| c' rest'] eqn:E.
    + destruct (Ascii.eqb c "/") eqn:Ec.
      * destruct t; discriminate.
      * destruct t as [| c0 t']; simpl.
        -- intros H. inversion H; subst c.
           rewrite Ascii.eqb_refl in Ec. discriminate Ec.
        -- intros H. inversion H. destruct t'; discriminate.
    + destruct t as [| c0 t']; simpl.
      * discriminate.
      * intros H. inversion H. eapply IH. eassumption.
Qed.

(** X25. A new client stores the base URL without its trailing slashes,
    and nothing else of it is changed; it holds the tokens it was given
    and knows no rate limit yet. *)
Theorem init_strips_base_url url a r :
  let c := OpenDataAPIClient__init__ url a r in
  (exists n, url = base_url c +:+ slashes n) /\
  (forall t, base_url c <> t +:+ "/") /\
  access_token c = a /\
  refresh_token c = r /\
  limit (rate_limit c) = None /\
  remaining (rate_limit c) = None /\
  reset (rate_limit c) = None.
Proof.
  simpl. split; [apply rstrip_slash_suffix |].
  split; [apply rstrip_slash_end |]. repeat split.
Qed.

(** ** Worked instances *)

Lemma refresh_requires_token_witness :
  refresh_access_token example_runtime not_modified anonymous_world
    = (Raise (ValueError "Refresh token is required"), anonymous_world) /\
  sent (snd (refresh_access_token example_runtime not_modified anonymous_world))
    = sent anonymous_world /\
  client (snd (refresh_access_token example_runtime not_modified anonymous_world))
    = client anonymous_world.
Proof.
  apply (refresh_requires_token example_runtime not_modified anonymous_world).
  reflexivity.
Defined.





Lemma get_data_propagates_witness :
  fst (get_data example_runtime (always gone) "a/b.json" (JStr "etag1")
         example_world)
    = Raise (OpenDataAPIError (JStr "not found") 404 (JStr "")).
Proof.
  rewrite (get_data_propagates example_runtime (always gone) "a/b.json"
             (JStr "etag1") example_world
             (OpenDataAPIError (JStr "not found") 404 (JStr ""))
             (snd (_request example_runtime (always gone) "GET" "/data/a/b.json"
                     {| kw_headers := Some (<["If-None-Match" := JStr "etag1"]> ∅);
                        kw_json := None |} example_world))).
  - reflexivity.
  - apply run_fst. vm_compute. reflexivity.
Defined.

Lemma logout_then_unauthenticated_witness :
  let w1 := snd (logout example_runtime (always no_content) example_world) in
  refresh_access_token example_runtime (always no_content) w1
    = (Raise (ValueError "Refresh token is required"), w1).
Proof.
  apply (logout_then_unauthenticated example_runtime (always no_content)
           example_world).
  vm_compute. reflexivity.
Defined.

Lemma fetch_with_retry_no_attempts_witness :
  fetch_with_retry example_runtime not_modified "p" 0 example_world
    = (Raise (Exception (failed_after 0)), example_world).
Proof.
  apply (fetch_with_retry_no_attempts example_runtime not_modified "p" 0
           example_world).
  lia.
Defined.

Lemma fetch_with_retry_gives_up_witness :
  fst (fetch_with_retry example_runtime (always gone) "p" 3 example_world)
    = Raise (OpenDataAPIError (JStr "not found") 404 (JStr "")).
Proof.
  rewrite (fetch_with_retry_gives_up example_runtime (always gone) "p" 3
             example_world (JStr "not found") 404 (JStr "")
             (snd (get_data example_runtime (always gone) "p" JNull
                     example_world))).
  - reflexivity.
  - apply run_fst. vm_compute. reflexivity.
  - lia.
  - left. lia.
Defined.

Lemma fetch_with_retry_other_errors_witness :
  fst (fetch_with_retry example_runtime (scripted [] (Broken "connection refused"))
         "p" 3 example_world)
    = Raise (TransportError "connection refused").
Proof.
  rewrite (fetch_with_retry_other_errors example_runtime
             (scripted [] (Broken "connection refused")) "p" 3 example_world
             (TransportError "connection refused")
             (snd (get_data example_runtime
                     (scripted [] (Broken "connection refused")) "p" JNull
                     example_world))).
  - reflexivity.
  - apply run_fst. vm_compute. reflexivity.
  - reflexivity.
  - lia.
Defined.

Lemma fetch_multiple_data_requests_witness :
  length (sent (snd (fetch_multiple_data example_runtime low_headroom
                       ["p1"; "p2"; "p3"] 2 example_world)))
    = (length (sent example_world) + length ["p1"; "p2"; "p3"])%nat.
Proof.
  apply (fetch_multiple_data_requests example_runtime low_headroom
           ["p1"; "p2"; "p3"] 2 example_world).
  lia.
Defined.

Lemma fetch_multiple_data_pauses_witness :
  sleeps (snd (fetch_multiple_data example_runtime low_headroom
                 ["p1"; "p2"; "p3"] 5 example_world))
    = sleeps example_world.
Proof.
  apply (fetch_multiple_data_pauses example_runtime low_headroom
           ["p1"; "p2"; "p3"] 5 example_world).
  - lia.
  - simpl. lia.
Defined.

Lemma get_round_trip_witness :
  CachedDataFetcher.get example_runtime fresh_then_null "a/b.json"
    (<["a/b.json" := (JNum 7, JStr "etag1")]> ∅)
    (snd (get_data example_runtime fresh_then_null "a/b.json" JNull
            example_world))
  = (Ok (JNum 7), <["a/b.json" := (JNum 7, JStr "etag1")]> ∅,
     snd (get_data example_runtime fresh_then_null "a/b.json" (JStr "etag1")
            (snd (get_data example_runtime fresh_then_null "a/b.json" JNull
                    example_world)))).
Proof.
  apply (get_round_trip example_runtime fresh_then_null "a/b.json" ∅
           example_world (JNum 7) (JStr "etag1")
           (snd (get_data example_runtime fresh_then_null "a/b.json" JNull
                   example_world))
           (JStr "etag1")).
  - apply run_fst. vm_compute. reflexivity.
  - discriminate.
  - apply run_fst. vm_compute. reflexivity.
Defined.

Lemma get_keeps_cache_filled_witness :
  cache_filled
    (snd (fst (CachedDataFetcher.get example_runtime (always fresh) "a/b.json"
                 ∅ example_world))).
Proof.
  apply (get_keeps_cache_filled example_runtime (always fresh) "a/b.json" ∅
           example_world).
  intros path data etag H. rewrite lookup_empty in H. discriminate H.
Defined.

Lemma fetch_multiple_data_bad_batch_size_witness :
  fetch_multiple_data example_runtime low_headroom ["p1"; "p2"; "p3"] 0
    example_world
    = (Raise (ValueError "range() arg 3 must not be zero"), example_world) /\
  fetch_multiple_data example_runtime low_headroom ["p1"; "p2"; "p3"] (-2)
    example_world
    = (Ok [], example_world).
Proof.
  split.
  - apply (proj1 (fetch_multiple_data_bad_batch_size example_runtime
                    low_headroom ["p1"; "p2"; "p3"] 0 example_world)).
    reflexivity.
  - apply (proj2 (fetch_multiple_data_bad_batch_size example_runtime
                    low_headroom ["p1"; "p2"; "p3"] (-2) example_world)).
    lia.
Defined.
